(** * CubemapFilter: the IBL cubemap filter of the render pipeline

    A shallow embedding of [Code/Util/CubemapFilter.py].  The class is glue
    code over the host engine: it asks an image factory for cube maps, asks
    its parent stage for render targets and shaders, and wires them together.
    The embedding keeps the methods as they are written, in a small state and
    exception monad over the filter object and the host engine, and records
    every host call in a log. *)

From Equations Require Import Equations.
From stdpp Require Import base list strings pretty gmap.

Open Scope Z_scope.

(** ** Host engine data *)

(** The values of panda3d's [Texture] enumerations the module mentions, next
    to one other value of each so that the choice is visible. *)
Inductive ComponentType := T_unsigned_byte | T_float.
Inductive Format := F_rgba16 | F_r11_g11_b10.
Inductive FilterType := FT_nearest | FT_linear | FT_linear_mipmap_linear.
Inductive TextureType := TT_2d_texture | TT_cube_map.

#[global] Instance ComponentType_eq_dec : EqDecision ComponentType.
Proof. solve_decision. Defined.
#[global] Instance Format_eq_dec : EqDecision Format.
Proof. solve_decision. Defined.
#[global] Instance FilterType_eq_dec : EqDecision FilterType.
Proof. solve_decision. Defined.
#[global] Instance TextureType_eq_dec : EqDecision TextureType.
Proof. solve_decision. Defined.

(** Host objects live in stores and are named by their index. *)
Abbreviation tex_ref := nat (only parsing).
Abbreviation target_ref := nat (only parsing).
Abbreviation shader_ref := nat (only parsing).
Abbreviation stage_ref := nat (only parsing).

(** Modelled from the spec: the texture behind an image of the engine's
    texture/image abstraction ([panda3d.core.Texture] is not part of the
    sources).  The filters are [None] until one of the setters is called. *)
Record Texture := mkTexture {
  tex_name : string;
  tex_type : TextureType;
  tex_size : Z;
  tex_component : ComponentType;
  tex_format : Format;
  tex_minfilter : option FilterType;
  tex_magfilter : option FilterType }.

(** Modelled from the spec: an [Image] of the external image factory
    ([.Image] is not part of the sources); the module only reads its
    [texture] attribute. *)
Record Image := mkImage { texture : tex_ref }.

(** The arguments [set_shader_input] is called with: a texture, a texture
    followed by the five positional arguments of an image binding
    ([False, True, -1, level, 0] in the source), or an integer. *)
Inductive ShaderInput :=
| SI_texture (t : tex_ref)
| SI_image (t : tex_ref) (a1 a2 : bool) (a3 level a5 : Z)
| SI_int (n : Z).

(** Modelled from the spec: a render target of the rendering stage (the
    target class is not part of the sources): what the calls made on it
    have set. *)
Record RenderTarget := mkTarget {
  tgt_name : string;
  tgt_size : option (Z * Z);
  tgt_color_texture : bool;
  tgt_prepared : bool;
  tgt_inputs : gmap string ShaderInput;
  tgt_shader : option shader_ref }.

(** The calls the module makes on its collaborators. *)
Inductive HostCall :=
| Call_create_cube (name : string) (size : Z) (ct : ComponentType) (fmt : Format)
| Call_set_minfilter (t : tex_ref) (f : FilterType)
| Call_set_magfilter (t : tex_ref) (f : FilterType)
| Call_create_target (stage : stage_ref) (name : string)
| Call_set_size (t : target_ref) (w h : Z)
| Call_add_color_texture (t : target_ref)
| Call_prepare_offscreen_buffer (t : target_ref)
| Call_set_shader_input (t : target_ref) (name : string) (v : ShaderInput)
| Call_load_shader (stage : stage_ref) (path : string)
| Call_set_shader (t : target_ref) (s : shader_ref).

(** The host engine: its textures, render targets and loaded shaders (each
    shader is the path it was loaded from), and the log of calls, oldest
    first. *)
Record World := mkWorld {
  textures : list Texture;
  targets : list RenderTarget;
  shaders : list string;
  calls : list HostCall }.

(** ** The filter object *)

(** The attributes of a [CubemapFilter] instance; an attribute is [None]
    until it is assigned. *)
Record CubemapFilter := mkFilter {
  _stage : option stage_ref;
  _name : option string;
  _size : option Z;
  _prefilter_map : option Image;
  _diffuse_map : option Image;
  _spec_pref_map : option Image;
  _specular_map : option Image;
  _targets_spec : option (list target_ref);
  _targets_spec_filter : option (list target_ref);
  _diffuse_target : option target_ref;
  _diff_filter_target : option target_ref }.

Definition DIFFUSE_CUBEMAP_SIZE : Z := 10.
Definition PREFILTER_CUBEMAP_SIZE : Z := 32.

(** An instance before [__init__] has run. *)
Definition blank_filter : CubemapFilter :=
  mkFilter None None None None None None None None None None None.

Definition set__stage v (o : CubemapFilter) :=
  mkFilter (Some v) (_name o) (_size o) (_prefilter_map o) (_diffuse_map o)
    (_spec_pref_map o) (_specular_map o) (_targets_spec o)
    (_targets_spec_filter o) (_diffuse_target o) (_diff_filter_target o).
Definition set__name v (o : CubemapFilter) :=
  mkFilter (_stage o) (Some v) (_size o) (_prefilter_map o) (_diffuse_map o)
    (_spec_pref_map o) (_specular_map o) (_targets_spec o)
    (_targets_spec_filter o) (_diffuse_target o) (_diff_filter_target o).
Definition set__size v (o : CubemapFilter) :=
  mkFilter (_stage o) (_name o) (Some v) (_prefilter_map o) (_diffuse_map o)
    (_spec_pref_map o) (_specular_map o) (_targets_spec o)
    (_targets_spec_filter o) (_diffuse_target o) (_diff_filter_target o).
Definition set__prefilter_map v (o : CubemapFilter) :=
  mkFilter (_stage o) (_name o) (_size o) (Some v) (_diffuse_map o)
    (_spec_pref_map o) (_specular_map o) (_targets_spec o)
    (_targets_spec_filter o) (_diffuse_target o) (_diff_filter_target o).
Definition set__diffuse_map v (o : CubemapFilter) :=
  mkFilter (_stage o) (_name o) (_size o) (_prefilter_map o) (Some v)
    (_spec_pref_map o) (_specular_map o) (_targets_spec o)
    (_targets_spec_filter o) (_diffuse_target o) (_diff_filter_target o).
Definition set__spec_pref_map v (o : CubemapFilter) :=
  mkFilter (_stage o) (_name o) (_size o) (_prefilter_map o) (_diffuse_map o)
    (Some v) (_specular_map o) (_targets_spec o)
    (_targets_spec_filter o) (_diffuse_target o) (_diff_filter_target o).
Definition set__specular_map v (o : CubemapFilter) :=
  mkFilter (_stage o) (_name o) (_size o) (_prefilter_map o) (_diffuse_map o)
    (_spec_pref_map o) (Some v) (_targets_spec o)
    (_targets_spec_filter o) (_diffuse_target o) (_diff_filter_target o).
Definition set__targets_spec v (o : CubemapFilter) :=
  mkFilter (_stage o) (_name o) (_size o) (_prefilter_map o) (_diffuse_map o)
    (_spec_pref_map o) (_specular_map o) (Some v)
    (_targets_spec_filter o) (_diffuse_target o) (_diff_filter_target o).
Definition set__targets_spec_filter v (o : CubemapFilter) :=
  mkFilter (_stage o) (_name o) (_size o) (_prefilter_map o) (_diffuse_map o)
    (_spec_pref_map o) (_specular_map o) (_targets_spec o)
    (Some v) (_diffuse_target o) (_diff_filter_target o).
Definition set__diffuse_target v (o : CubemapFilter) :=
  mkFilter (_stage o) (_name o) (_size o) (_prefilter_map o) (_diffuse_map o)
    (_spec_pref_map o) (_specular_map o) (_targets_spec o)
    (_targets_spec_filter o) (Some v) (_diff_filter_target o).
Definition set__diff_filter_target v (o : CubemapFilter) :=
  mkFilter (_stage o) (_name o) (_size o) (_prefilter_map o) (_diffuse_map o)
    (_spec_pref_map o) (_specular_map o) (_targets_spec o)
    (_targets_spec_filter o) (_diffuse_target o) (Some v).

(** ** The monad: state of the instance and the host, and exceptions *)

Record St := mkSt { self : CubemapFilter; world : World }.

Inductive exn := AttributeError (attr : string).

Inductive Res (A : Type) := Ok (a : A) | Raise (e : exn).
Arguments Ok {A} a.
Arguments Raise {A} e.

(** A computation returns or raises, and leaves a state either way: what
    was done before an exception stays done. *)
Definition M (A : Type) : Type := St -> Res A * St.

#[global] Instance M_ret : MRet M := fun A a st => (Ok a, st).
#[global] Instance M_bind : MBind M := fun A B f m st =>
  match m st with
  | (Ok a, st') => f a st'
  | (Raise e, st') => (Raise e, st')
  end.

(** [self.attr], which raises when the attribute was never assigned. *)
Definition getattr {A} (field : CubemapFilter -> option A) (attr : string) : M A :=
  fun st => match field (self st) with
            | Some v => (Ok v, st)
            | None => (Raise (AttributeError attr), st)
            end.

(** [self.attr = v], through one of the setters above. *)
Definition setattr (upd : CubemapFilter -> CubemapFilter) : M unit :=
  fun st => (Ok tt, mkSt (upd (self st)) (world st)).

(** [for x in l: body] *)
Fixpoint for_each {A} (l : list A) (body : A -> M unit) : M unit :=
  match l with
  | [] => mret tt
  | x :: l' => body x;; for_each l' body
  end.

(** [str] of a Python integer. *)
Definition str (z : Z) : string := pretty z.

(** ** The collaborators *)

Definition log (c : HostCall) (w : World) : World :=
  mkWorld (textures w) (targets w) (shaders w) (calls w ++ [c]).
(** A call on a handle the host does not hold changes no object. *)
Definition alter_texture (f : Texture -> Texture) (t : tex_ref) (w : World) : World :=
  mkWorld (alter f t (textures w)) (targets w) (shaders w) (calls w).
Definition alter_target (f : RenderTarget -> RenderTarget) (t : target_ref) (w : World) : World :=
  mkWorld (textures w) (alter f t (targets w)) (shaders w) (calls w).
Definition new_texture (x : Texture) (w : World) : World :=
  mkWorld (textures w ++ [x]) (targets w) (shaders w) (calls w).
Definition new_target (x : RenderTarget) (w : World) : World :=
  mkWorld (textures w) (targets w ++ [x]) (shaders w) (calls w).
Definition new_shader (x : string) (w : World) : World :=
  mkWorld (textures w) (targets w) (shaders w ++ [x]) (calls w).

(** A host call that returns nothing: it is logged and changes the host. *)
Definition host (c : HostCall) (f : World -> World) : M unit :=
  fun st => (Ok tt, mkSt (self st) (f (log c (world st)))).

(** Modelled from the spec: [Image.create_cube(name, size, component_type,
    format)], the external image factory, hands out a new cube-mapped
    texture of that size and format. *)
Definition Image_create_cube (name : string) (size : Z) (ct : ComponentType)
    (fmt : Format) : M Image :=
  fun st =>
    (Ok (mkImage (length (textures (world st)))),
     mkSt (self st)
       (new_texture (mkTexture name TT_cube_map size ct fmt None None)
          (log (Call_create_cube name size ct fmt) (world st)))).

Definition with_minfilter (f : FilterType) (x : Texture) : Texture :=
  mkTexture (tex_name x) (tex_type x) (tex_size x) (tex_component x)
    (tex_format x) (Some f) (tex_magfilter x).
Definition with_magfilter (f : FilterType) (x : Texture) : Texture :=
  mkTexture (tex_name x) (tex_type x) (tex_size x) (tex_component x)
    (tex_format x) (tex_minfilter x) (Some f).

(** Modelled from the spec: [Texture.set_minfilter] and
    [Texture.set_magfilter] of the engine. *)
Definition set_minfilter (t : tex_ref) (f : FilterType) : M unit :=
  host (Call_set_minfilter t f) (alter_texture (with_minfilter f) t).
Definition set_magfilter (t : tex_ref) (f : FilterType) : M unit :=
  host (Call_set_magfilter t f) (alter_texture (with_magfilter f) t).

(** Modelled from the spec: [stage._create_target(name)] of the rendering
    stage hands out a new render target with nothing set on it. *)
Definition _create_target (stage : stage_ref) (name : string) : M target_ref :=
  fun st =>
    (Ok (length (targets (world st))),
     mkSt (self st)
       (new_target (mkTarget name None false false ∅ None)
          (log (Call_create_target stage name) (world st)))).

(** Modelled from the spec: [stage._load_shader(path)], the shader loader,
    hands out a newly loaded shader program. *)
Definition _load_shader (stage : stage_ref) (path : string) : M shader_ref :=
  fun st =>
    (Ok (length (shaders (world st))),
     mkSt (self st)
       (new_shader path (log (Call_load_shader stage path) (world st)))).

Definition with_size (w h : Z) (x : RenderTarget) : RenderTarget :=
  mkTarget (tgt_name x) (Some (w, h)) (tgt_color_texture x) (tgt_prepared x)
    (tgt_inputs x) (tgt_shader x).
Definition with_color_texture (x : RenderTarget) : RenderTarget :=
  mkTarget (tgt_name x) (tgt_size x) true (tgt_prepared x)
    (tgt_inputs x) (tgt_shader x).
Definition with_prepared (x : RenderTarget) : RenderTarget :=
  mkTarget (tgt_name x) (tgt_size x) (tgt_color_texture x) true
    (tgt_inputs x) (tgt_shader x).
Definition with_input (name : string) (v : ShaderInput) (x : RenderTarget) : RenderTarget :=
  mkTarget (tgt_name x) (tgt_size x) (tgt_color_texture x) (tgt_prepared x)
    (<[name:=v]> (tgt_inputs x)) (tgt_shader x).
Definition with_shader (s : shader_ref) (x : RenderTarget) : RenderTarget :=
  mkTarget (tgt_name x) (tgt_size x) (tgt_color_texture x) (tgt_prepared x)
    (tgt_inputs x) (Some s).

(** Modelled from the spec: the methods of a render target. *)
Definition set_size (t : target_ref) (w h : Z) : M unit :=
  host (Call_set_size t w h) (alter_target (with_size w h) t).
Definition add_color_texture (t : target_ref) : M unit :=
  host (Call_add_color_texture t) (alter_target with_color_texture t).
Definition prepare_offscreen_buffer (t : target_ref) : M unit :=
  host (Call_prepare_offscreen_buffer t) (alter_target with_prepared t).
Definition set_shader_input (t : target_ref) (name : string) (v : ShaderInput) : M unit :=
  host (Call_set_shader_input t name v) (alter_target (with_input name v) t).
Definition set_shader (t : target_ref) (s : shader_ref) : M unit :=
  host (Call_set_shader t s) (alter_target (with_shader s) t).

(** ** The methods of [CubemapFilter] *)

(** [_make_maps]: the cube map storage and its filtering modes. *)
Definition _make_maps : M unit :=
  name ← getattr _name "_name";
  img ← Image_create_cube (name +:+ "IBLPrefDiff") PREFILTER_CUBEMAP_SIZE
          T_float F_r11_g11_b10;
  setattr (set__prefilter_map img);;
  name ← getattr _name "_name";
  img ← Image_create_cube (name +:+ "IBLDiff") DIFFUSE_CUBEMAP_SIZE
          T_float F_r11_g11_b10;
  setattr (set__diffuse_map img);;
  name ← getattr _name "_name";
  size ← getattr _size "_size";
  img ← Image_create_cube (name +:+ "IBLPrefSpec") size T_float F_r11_g11_b10;
  setattr (set__spec_pref_map img);;
  name ← getattr _name "_name";
  size ← getattr _size "_size";
  img ← Image_create_cube (name +:+ "IBLSpec") size T_float F_r11_g11_b10;
  setattr (set__specular_map img);;
  diffuse_map ← getattr _diffuse_map "_diffuse_map";
  specular_map ← getattr _specular_map "_specular_map";
  prefilter_map ← getattr _prefilter_map "_prefilter_map";
  for_each [diffuse_map; specular_map; prefilter_map] (fun tex =>
    set_minfilter (texture tex) FT_linear;;
    set_magfilter (texture tex) FT_linear);;
  spec_pref_map ← getattr _spec_pref_map "_spec_pref_map";
  set_minfilter (texture spec_pref_map) FT_linear_mipmap_linear;;
  specular_map ← getattr _specular_map "_specular_map";
  set_minfilter (texture specular_map) FT_linear_mipmap_linear.

(** [__init__(self, parent_stage, name, size)] *)
Definition __init__ (parent_stage : stage_ref) (name : string) (size : Z) : M unit :=
  setattr (set__stage parent_stage);;
  setattr (set__name name);;
  setattr (set__size size);;
  _make_maps.

(** The default arguments of [__init__]. *)
Definition default_name : string := "Cubemap".
Definition default_size : Z := 256.

Definition get_specular_cubemap : M tex_ref :=
  specular_map ← getattr _specular_map "_specular_map";
  mret (texture specular_map).

Definition get_diffuse_cubemap : M tex_ref :=
  diffuse_map ← getattr _diffuse_map "_diffuse_map";
  mret (texture diffuse_map).

Definition get_target_cubemap : M tex_ref :=
  specular_map ← getattr _specular_map "_specular_map";
  mret (texture specular_map).

Definition get_size : M Z :=
  getattr _size "_size".

(** The read-only properties built from the getters. *)
Definition specular_cubemap : M tex_ref := get_specular_cubemap.
Definition diffuse_cubemap : M tex_ref := get_diffuse_cubemap.
Definition target_cubemap : M tex_ref := get_target_cubemap.

(** The [while mipsize >= 2] loop of [_make_specular_targets], with its two
    local variables.  The halving is Python's floor division. *)
Equations? spec_loop (mip mipsize : Z) : M unit by wf (Z.to_nat mipsize) lt :=
spec_loop mip mipsize with decide (mipsize >= 2) := {
  | left _ =>
      let mipsize := mipsize / 2 in
      stage ← getattr _stage "_stage";
      name ← getattr _name "_name";
      target ← _create_target stage ((name +:+ "SpecIBL-") +:+ str mipsize);
      set_size target (mipsize * 6) mipsize;;
      prepare_offscreen_buffer target;;
      (if decide (mip = 0)
       then specular_map ← getattr _specular_map "_specular_map";
            set_shader_input target "SourceTex" (SI_texture (texture specular_map))
       else spec_pref_map ← getattr _spec_pref_map "_spec_pref_map";
            set_shader_input target "SourceTex" (SI_texture (texture spec_pref_map)));;
      spec_pref_map ← getattr _spec_pref_map "_spec_pref_map";
      set_shader_input target "DestMipmap"
        (SI_image (texture spec_pref_map) false true (-1) (mip + 1) 0);;
      set_shader_input target "currentMip" (SI_int mip);;
      let mip := mip + 1 in
      stage ← getattr _stage "_stage";
      name ← getattr _name "_name";
      target_filter ← _create_target stage ((name +:+ "SpecIBLFilter-") +:+ str mipsize);
      set_size target_filter (mipsize * 6) mipsize;;
      prepare_offscreen_buffer target_filter;;
      set_shader_input target_filter "currentMip" (SI_int mip);;
      spec_pref_map ← getattr _spec_pref_map "_spec_pref_map";
      set_shader_input target_filter "SourceTex" (SI_texture (texture spec_pref_map));;
      specular_map ← getattr _specular_map "_specular_map";
      set_shader_input target_filter "DestMipmap"
        (SI_image (texture specular_map) false true (-1) mip 0);;
      targets_spec ← getattr _targets_spec "_targets_spec";
      setattr (set__targets_spec (targets_spec ++ [target]));;
      targets_spec_filter ← getattr _targets_spec_filter "_targets_spec_filter";
      setattr (set__targets_spec_filter (targets_spec_filter ++ [target_filter]));;
      spec_loop mip mipsize
  | right _ => mret tt }.
Proof.
  subst mipsize.
  pose proof (Z.div_lt mipsize0 2). pose proof (Z.div_pos mipsize0 2). lia.
Qed.

(** [_make_specular_targets]: the specular mip chain. *)
Definition _make_specular_targets : M unit :=
  setattr (set__targets_spec []);;
  setattr (set__targets_spec_filter []);;
  size ← getattr _size "_size";
  spec_loop 0 size.

(** [_make_diffuse_target]: the two targets of the diffuse cubemap. *)
Definition _make_diffuse_target : M unit :=
  stage ← getattr _stage "_stage";
  name ← getattr _name "_name";
  t ← _create_target stage (name +:+ "DiffuseIBL");
  setattr (set__diffuse_target t);;
  diffuse_target ← getattr _diffuse_target "_diffuse_target";
  set_size diffuse_target (PREFILTER_CUBEMAP_SIZE * 6) PREFILTER_CUBEMAP_SIZE;;
  diffuse_target ← getattr _diffuse_target "_diffuse_target";
  add_color_texture diffuse_target;;
  diffuse_target ← getattr _diffuse_target "_diffuse_target";
  prepare_offscreen_buffer diffuse_target;;
  diffuse_target ← getattr _diffuse_target "_diffuse_target";
  specular_map ← getattr _specular_map "_specular_map";
  set_shader_input diffuse_target "SourceCubemap" (SI_texture (texture specular_map));;
  diffuse_target ← getattr _diffuse_target "_diffuse_target";
  prefilter_map ← getattr _prefilter_map "_prefilter_map";
  set_shader_input diffuse_target "DestCubemap" (SI_texture (texture prefilter_map));;
  diffuse_target ← getattr _diffuse_target "_diffuse_target";
  set_shader_input diffuse_target "cubeSize" (SI_int PREFILTER_CUBEMAP_SIZE);;
  stage ← getattr _stage "_stage";
  name ← getattr _name "_name";
  t ← _create_target stage (name +:+ "DiffPrefIBL");
  setattr (set__diff_filter_target t);;
  diff_filter_target ← getattr _diff_filter_target "_diff_filter_target";
  set_size diff_filter_target (DIFFUSE_CUBEMAP_SIZE * 6) DIFFUSE_CUBEMAP_SIZE;;
  diff_filter_target ← getattr _diff_filter_target "_diff_filter_target";
  add_color_texture diff_filter_target;;
  diff_filter_target ← getattr _diff_filter_target "_diff_filter_target";
  prepare_offscreen_buffer diff_filter_target;;
  diff_filter_target ← getattr _diff_filter_target "_diff_filter_target";
  prefilter_map ← getattr _prefilter_map "_prefilter_map";
  set_shader_input diff_filter_target "SourceCubemap" (SI_texture (texture prefilter_map));;
  diff_filter_target ← getattr _diff_filter_target "_diff_filter_target";
  diffuse_map ← getattr _diffuse_map "_diffuse_map";
  set_shader_input diff_filter_target "DestCubemap" (SI_texture (texture diffuse_map));;
  diff_filter_target ← getattr _diff_filter_target "_diff_filter_target";
  set_shader_input diff_filter_target "cubeSize" (SI_int DIFFUSE_CUBEMAP_SIZE).

(** [create]: the specular chain, then the diffuse targets. *)
Definition create : M unit :=
  _make_specular_targets;;
  _make_diffuse_target.

(** [set_shaders].  Python evaluates the receiver of a call before its
    arguments, so an unassigned target attribute raises before the shader
    is loaded. *)
Definition set_shaders : M unit :=
  diffuse_target ← getattr _diffuse_target "_diffuse_target";
  stage ← getattr _stage "_stage";
  shader ← _load_shader stage "Stages/IBLCubemapDiffuse.frag";
  set_shader diffuse_target shader;;
  diff_filter_target ← getattr _diff_filter_target "_diff_filter_target";
  stage ← getattr _stage "_stage";
  shader ← _load_shader stage "Stages/IBLCubemapDiffFilter.frag";
  set_shader diff_filter_target shader;;
  stage ← getattr _stage "_stage";
  mip_shader ← _load_shader stage "Stages/IBLCubemapSpecular.frag";
  targets_spec ← getattr _targets_spec "_targets_spec";
  for_each targets_spec (fun target => set_shader target mip_shader);;
  stage ← getattr _stage "_stage";
  mip_filter_shader ← _load_shader stage "Stages/IBLCubemapSpecularFilter.frag";
  targets_spec_filter ← getattr _targets_spec_filter "_targets_spec_filter";
  for_each targets_spec_filter (fun target => set_shader target mip_filter_shader).

(** ** Running the class *)

(** [CubemapFilter(parent_stage, name, size)]: [__init__] on a new instance. *)
Definition construct (parent_stage : stage_ref) (name : string) (size : Z)
    (w : World) : Res unit * St :=
  __init__ parent_stage name size (mkSt blank_filter w).

(** The two methods a caller invokes on a constructed filter. *)
Inductive Op := OpCreate | OpSetShaders.

Definition run_op (o : Op) : M unit :=
  match o with
  | OpCreate => create
  | OpSetShaders => set_shaders
  end.

(** A caller making the calls [ops] in order, going on after an exception. *)
Fixpoint run_ops (ops : list Op) (st : St) : St :=
  match ops with
  | [] => st
  | o :: ops' => run_ops ops' (run_op o st).2
  end.

Definition empty_world : World := mkWorld [] [] [] [].

(** Two hosts that hold as many objects of each kind, and differ in what
    these are and in what was called before. *)
Definition host_a : World :=
  mkWorld [mkTexture "a" TT_2d_texture 1 T_unsigned_byte F_rgba16 None None]
    [] [] [].
Definition host_b : World :=
  mkWorld [mkTexture "b" TT_cube_map 8 T_float F_r11_g11_b10 (Some FT_nearest) None]
    [] [] [Call_set_minfilter 0 FT_nearest].

(** A constructor call followed by method calls, as far as no call raises. *)
Definition and_then (r : Res unit * St) (m : M unit) : Res unit * St :=
  match r with
  | (Ok _, st) => m st
  | (Raise e, st) => (Raise e, st)
  end.

(** [CubemapFilter(parent_stage, name, size)], [create()], [set_shaders()]. *)
Definition session (parent_stage : stage_ref) (name : string) (size : Z)
    (w : World) : Res unit * St :=
  and_then (and_then (construct parent_stage name size w) create) set_shaders.

(** The calls logged between two states of the host. *)
Definition issued (before after : World) : list HostCall :=
  drop (length (calls before)) (calls after).

(** The calls to the image factory. *)
Definition is_create_cube (c : HostCall) : bool :=
  match c with
  | Call_create_cube _ _ _ _ => true
  | _ => false
  end.

(** The shader of the target [t], when it has one. *)
Definition shader_at (tg : list RenderTarget) (t : target_ref) : option shader_ref :=
  match tg !! t with
  | Some x => tgt_shader x
  | None => None
  end.

Definition shader_of (w : World) (t : target_ref) : option shader_ref :=
  shader_at (targets w) t.

(** A cube map of the given size with float components in the
    [F_r11_g11_b10] format. *)
Definition float_cube_map (size : Z) (x : Texture) : Prop :=
  tex_type x = TT_cube_map /\ tex_size x = size /\
  tex_component x = T_float /\ tex_format x = F_r11_g11_b10.

#[global] Instance float_cube_map_dec size x : Decision (float_cube_map size x).
Proof. unfold float_cube_map. apply _. Defined.

(** ** What the methods leave behind

    The definitions below describe the states the methods are proved to
    reach; they are not part of the embedding of the class. *)

(** The values [mipsize] takes in the loop of [_make_specular_targets]
    that starts from [mipsize]. *)
Equations? halvings (mipsize : Z) : list Z by wf (Z.to_nat mipsize) lt :=
halvings mipsize with decide (mipsize >= 2) := {
  | left _ => (mipsize / 2) :: halvings (mipsize / 2)
  | right _ => [] }.
Proof.
  pose proof (Z.div_lt mipsize 2). pose proof (Z.div_pos mipsize 2). lia.
Qed.

(** [count] handles from [n] on, skipping every second one. *)
Fixpoint every_other (n count : nat) : list nat :=
  match count with
  | O => []
  | S count' => n :: every_other (S (S n)) count'
  end.

(** The four cube maps after [_make_maps]. *)
Definition cube_maps (name : string) (size : Z) : list Texture :=
  [ mkTexture (name +:+ "IBLPrefDiff") TT_cube_map PREFILTER_CUBEMAP_SIZE
      T_float F_r11_g11_b10 (Some FT_linear) (Some FT_linear);
    mkTexture (name +:+ "IBLDiff") TT_cube_map DIFFUSE_CUBEMAP_SIZE
      T_float F_r11_g11_b10 (Some FT_linear) (Some FT_linear);
    mkTexture (name +:+ "IBLPrefSpec") TT_cube_map size
      T_float F_r11_g11_b10 (Some FT_linear_mipmap_linear) None;
    mkTexture (name +:+ "IBLSpec") TT_cube_map size
      T_float F_r11_g11_b10 (Some FT_linear_mipmap_linear) (Some FT_linear) ].

(** The calls of [_make_maps] when the host holds [n] textures. *)
Definition make_maps_calls (name : string) (size : Z) (n : nat) : list HostCall :=
  [ Call_create_cube (name +:+ "IBLPrefDiff") PREFILTER_CUBEMAP_SIZE T_float F_r11_g11_b10;
    Call_create_cube (name +:+ "IBLDiff") DIFFUSE_CUBEMAP_SIZE T_float F_r11_g11_b10;
    Call_create_cube (name +:+ "IBLPrefSpec") size T_float F_r11_g11_b10;
    Call_create_cube (name +:+ "IBLSpec") size T_float F_r11_g11_b10;
    Call_set_minfilter (n + 1) FT_linear;
    Call_set_magfilter (n + 1) FT_linear;
    Call_set_minfilter (n + 3) FT_linear;
    Call_set_magfilter (n + 3) FT_linear;
    Call_set_minfilter n FT_linear;
    Call_set_magfilter n FT_linear;
    Call_set_minfilter (n + 2) FT_linear_mipmap_linear;
    Call_set_minfilter (n + 3) FT_linear_mipmap_linear ].

(** The instance with the attributes of [__init__] and those of [create]. *)
Definition filter_with (stage : stage_ref) (name : string) (size : Z) (n : nat)
    (ts fs : option (list target_ref)) (dt dft : option target_ref) : CubemapFilter :=
  mkFilter (Some stage) (Some name) (Some size)
    (Some (mkImage n)) (Some (mkImage (n + 1)))
    (Some (mkImage (n + 2))) (Some (mkImage (n + 3))) ts fs dt dft.

Section chain.
Context (stage : stage_ref) (name : string).
(** The textures of the specular map, the specular prefilter map, the
    prefilter map and the diffuse map. *)
Context (sm pm pf dm : tex_ref).

Definition downsample_target (mip mipsize : Z) : RenderTarget :=
  mkTarget ((name +:+ "SpecIBL-") +:+ str mipsize)
    (Some (mipsize * 6, mipsize)) false true
    (<["currentMip" := SI_int mip]>
       (<["DestMipmap" := SI_image pm false true (-1) (mip + 1) 0]>
          (<["SourceTex" := SI_texture (if decide (mip = 0) then sm else pm)]> ∅)))
    None.

(** [mip] is the counter after its increment. *)
Definition filter_target (mip mipsize : Z) : RenderTarget :=
  mkTarget ((name +:+ "SpecIBLFilter-") +:+ str mipsize)
    (Some (mipsize * 6, mipsize)) false true
    (<["DestMipmap" := SI_image sm false true (-1) mip 0]>
       (<["SourceTex" := SI_texture pm]>
          (<["currentMip" := SI_int mip]> ∅)))
    None.

Definition downsample_calls (t : target_ref) (mip mipsize : Z) : list HostCall :=
  [ Call_create_target stage ((name +:+ "SpecIBL-") +:+ str mipsize);
    Call_set_size t (mipsize * 6) mipsize;
    Call_prepare_offscreen_buffer t;
    Call_set_shader_input t "SourceTex"
      (SI_texture (if decide (mip = 0) then sm else pm));
    Call_set_shader_input t "DestMipmap"
      (SI_image pm false true (-1) (mip + 1) 0);
    Call_set_shader_input t "currentMip" (SI_int mip) ].

Definition filter_calls (t : target_ref) (mip mipsize : Z) : list HostCall :=
  [ Call_create_target stage ((name +:+ "SpecIBLFilter-") +:+ str mipsize);
    Call_set_size t (mipsize * 6) mipsize;
    Call_prepare_offscreen_buffer t;
    Call_set_shader_input t "currentMip" (SI_int mip);
    Call_set_shader_input t "SourceTex" (SI_texture pm);
    Call_set_shader_input t "DestMipmap" (SI_image sm false true (-1) mip 0) ].

(** The targets of the loop started with counter [mip], one pair for each
    of the sizes. *)
Fixpoint spec_chain (mip : Z) (sizes : list Z) : list RenderTarget :=
  match sizes with
  | [] => []
  | s :: sizes' =>
      downsample_target mip s :: filter_target (mip + 1) s
        :: spec_chain (mip + 1) sizes'
  end.

(** The calls of that loop when the host holds [t] targets. *)
Fixpoint spec_chain_calls (t : target_ref) (mip : Z) (sizes : list Z) : list HostCall :=
  match sizes with
  | [] => []
  | s :: sizes' =>
      downsample_calls t mip s ++ filter_calls (S t) (mip + 1) s
        ++ spec_chain_calls (S (S t)) (mip + 1) sizes'
  end.

Definition integrate_target : RenderTarget :=
  mkTarget (name +:+ "DiffuseIBL")
    (Some (PREFILTER_CUBEMAP_SIZE * 6, PREFILTER_CUBEMAP_SIZE)) true true
    (<["cubeSize" := SI_int PREFILTER_CUBEMAP_SIZE]>
       (<["DestCubemap" := SI_texture pf]>
          (<["SourceCubemap" := SI_texture sm]> ∅)))
    None.

Definition denoise_target : RenderTarget :=
  mkTarget (name +:+ "DiffPrefIBL")
    (Some (DIFFUSE_CUBEMAP_SIZE * 6, DIFFUSE_CUBEMAP_SIZE)) true true
    (<["cubeSize" := SI_int DIFFUSE_CUBEMAP_SIZE]>
       (<["DestCubemap" := SI_texture dm]>
          (<["SourceCubemap" := SI_texture pf]> ∅)))
    None.

(** The calls of [_make_diffuse_target] when the host holds [t] targets. *)
Definition diffuse_calls (t : target_ref) : list HostCall :=
  [ Call_create_target stage (name +:+ "DiffuseIBL");
    Call_set_size t (PREFILTER_CUBEMAP_SIZE * 6) PREFILTER_CUBEMAP_SIZE;
    Call_add_color_texture t;
    Call_prepare_offscreen_buffer t;
    Call_set_shader_input t "SourceCubemap" (SI_texture sm);
    Call_set_shader_input t "DestCubemap" (SI_texture pf);
    Call_set_shader_input t "cubeSize" (SI_int PREFILTER_CUBEMAP_SIZE);
    Call_create_target stage (name +:+ "DiffPrefIBL");
    Call_set_size (S t) (DIFFUSE_CUBEMAP_SIZE * 6) DIFFUSE_CUBEMAP_SIZE;
    Call_add_color_texture (S t);
    Call_prepare_offscreen_buffer (S t);
    Call_set_shader_input (S t) "SourceCubemap" (SI_texture pf);
    Call_set_shader_input (S t) "DestCubemap" (SI_texture dm);
    Call_set_shader_input (S t) "cubeSize" (SI_int DIFFUSE_CUBEMAP_SIZE) ].
End chain.

(** The targets [ts] with the shader [s] set. *)
Definition shade (s : shader_ref) (ts : list target_ref) (tg : list RenderTarget)
    : list RenderTarget :=
  foldl (fun tg t => alter (with_shader s) t tg) tg ts.

(** The four shader programs [set_shaders] loads, in order. *)
Definition shader_paths : list string :=
  [ "Stages/IBLCubemapDiffuse.frag"; "Stages/IBLCubemapDiffFilter.frag";
    "Stages/IBLCubemapSpecular.frag"; "Stages/IBLCubemapSpecularFilter.frag" ].

(** The targets after [set_shaders] when the host holds [s] shaders. *)
Definition shaded (s : shader_ref) (dt dft : target_ref) (ts fs : list target_ref)
    (tg : list RenderTarget) : list RenderTarget :=
  shade (s + 3) fs (shade (s + 2) ts
    (alter (with_shader (s + 1)) dft (alter (with_shader s) dt tg))).

Definition set_shaders_calls (stage : stage_ref) (s : shader_ref)
    (dt dft : target_ref) (ts fs : list target_ref) : list HostCall :=
  [ Call_load_shader stage "Stages/IBLCubemapDiffuse.frag";
    Call_set_shader dt s;
    Call_load_shader stage "Stages/IBLCubemapDiffFilter.frag";
    Call_set_shader dft (s + 1);
    Call_load_shader stage "Stages/IBLCubemapSpecular.frag" ]
  ++ map (fun t => Call_set_shader t (s + 2)) ts
  ++ [ Call_load_shader stage "Stages/IBLCubemapSpecularFilter.frag" ]
  ++ map (fun t => Call_set_shader t (s + 3)) fs.

(** The targets [create] adds for a filter of [size] whose cube maps start
    at texture [n]. *)
Definition created_targets (name : string) (size : Z) (n : nat) : list RenderTarget :=
  spec_chain name (n + 3) (n + 2) 0 (halvings size)
  ++ [ integrate_target name (n + 3) n; denoise_target name n (n + 1) ].

(** The calls of [create] when the host holds [t] targets. *)
Definition create_calls (stage : stage_ref) (name : string) (size : Z)
    (n : nat) (t : target_ref) : list HostCall :=
  spec_chain_calls stage name (n + 3) (n + 2) t 0 (halvings size)
  ++ diffuse_calls stage name (n + 3) n (n + 1)
       (t + 2 * length (halvings size)).

(** The instance after [create] when the host held [t] targets. *)
Definition created_filter (stage : stage_ref) (name : string) (size : Z)
    (n : nat) (t : target_ref) : CubemapFilter :=
  filter_with stage name size n
    (Some (every_other t (length (halvings size))))
    (Some (every_other (S t) (length (halvings size))))
    (Some (t + 2 * length (halvings size))%nat)
    (Some (S (t + 2 * length (halvings size)))).

(** The calls of a whole session on a host that holds [n] textures, [t]
    targets and [s] shaders. *)
Definition session_calls (stage : stage_ref) (name : string) (size : Z)
    (n : nat) (t : target_ref) (s : shader_ref) : list HostCall :=
  make_maps_calls name size n
  ++ create_calls stage name size n t
  ++ set_shaders_calls stage s
       (t + 2 * length (halvings size)) (S (t + 2 * length (halvings size)))
       (every_other t (length (halvings size)))
       (every_other (S t) (length (halvings size))).

(** The attributes of [create] are assigned together or not at all. *)
Definition created_or_not (o : CubemapFilter) : Prop :=
  (_targets_spec o = None /\ _targets_spec_filter o = None /\
   _diffuse_target o = None /\ _diff_filter_target o = None) \/
  (is_Some (_targets_spec o) /\ is_Some (_targets_spec_filter o) /\
   is_Some (_diffuse_target o) /\ is_Some (_diff_filter_target o)).

(** A filter built by [CubemapFilter(stage, name, size)] on the host [w0],
    at some later point of its life. *)
Definition alive (stage : stage_ref) (name : string) (size : Z) (w0 : World)
    (st : St) : Prop :=
  (exists ts fs dt dft,
      self st = filter_with stage name size (length (textures w0)) ts fs dt dft) /\
  created_or_not (self st) /\
  textures (world st) = textures w0 ++ cube_maps name size.

(** Two states of one target that differ at most in the shader. *)
Definition same_but_shader (x y : RenderTarget) : Prop :=
  tgt_name x = tgt_name y /\ tgt_size x = tgt_size y /\
  tgt_color_texture x = tgt_color_texture y /\
  tgt_prepared x = tgt_prepared y /\ tgt_inputs x = tgt_inputs y.

(** A target handle that names a target made after the host was [w0]. *)
Definition own_handle (w0 : World) (st : St) (t : target_ref) : Prop :=
  (length (targets w0) <= t < length (targets (world st)))%nat.

(** The host [w0] is still there, and the filter only holds handles of
    targets made since. *)
Definition tidy (w0 : World) (st : St) : Prop :=
  targets w0 `prefix_of` targets (world st) /\
  shaders w0 `prefix_of` shaders (world st) /\
  calls w0 `prefix_of` calls (world st) /\
  (forall ts, _targets_spec (self st) = Some ts -> Forall (own_handle w0 st) ts) /\
  (forall fs, _targets_spec_filter (self st) = Some fs ->
     Forall (own_handle w0 st) fs) /\
  (forall t, _diffuse_target (self st) = Some t -> own_handle w0 st t) /\
  (forall t, _diff_filter_target (self st) = Some t -> own_handle w0 st t).

(** The states a filter built by [CubemapFilter(stage, name, size)] on the
    host [w0] goes through: the host keeps what it had, the cube maps are
    those of the constructor, and the filter is as the constructor left it
    or as some call of [create] left it, on targets made since. *)
Definition laid_out (stage : stage_ref) (name : string) (size : Z) (w0 : World)
    (st : St) : Prop :=
  textures (world st) = textures w0 ++ cube_maps name size /\
  targets w0 `prefix_of` targets (world st) /\
  shaders w0 `prefix_of` shaders (world st) /\
  calls w0 `prefix_of` calls (world st) /\
  (self st = filter_with stage name size (length (textures w0))
               None None None None \/
   exists t1 : nat,
     (length (targets w0) <= t1)%nat /\
     (t1 + 2 * length (halvings size) + 2 <= length (targets (world st)))%nat /\
     self st = created_filter stage name size (length (textures w0)) t1).

(** The state a call leaves, whether it returns or raises. *)
Definition after (m : M unit) (st : St) : St := (m st).2.

(** What [create] appends to the name of the filter to name its targets. *)
Definition target_suffixes (size : Z) : list string :=
  flat_map (fun s => ["SpecIBL-" +:+ str s; "SpecIBLFilter-" +:+ str s])
    (halvings size)
  ++ ["DiffuseIBL"; "DiffPrefIBL"].

(** The target a call is made on, for the methods of a target. *)
Definition call_target (c : HostCall) : option target_ref :=
  match c with
  | Call_set_size t _ _ => Some t
  | Call_add_color_texture t => Some t
  | Call_prepare_offscreen_buffer t => Some t
  | Call_set_shader_input t _ _ => Some t
  | Call_set_shader t _ => Some t
  | _ => None
  end.

(** The calls of a log that are made on the target [t], in order. *)
Definition calls_on (t : target_ref) (l : list HostCall) : list HostCall :=
  List.filter
    (fun c => match call_target c with
              | Some t' => Nat.eqb t' t
              | None => false
              end) l.

(** The texture a shader input binds, when it binds one. *)
Definition input_texture (v : ShaderInput) : option tex_ref :=
  match v with
  | SI_texture t => Some t
  | SI_image t _ _ _ _ _ => Some t
  | SI_int _ => None
  end.

(** The calls that set a mag-filter. *)
Definition is_set_magfilter (c : HostCall) : bool :=
  match c with
  | Call_set_magfilter _ _ => true
  | _ => false
  end.

(** * Properties *)

Arguments str : simpl never.
Arguments with_input : simpl never.

(** ** Running the primitives on a known state *)

(** Call-by-value evaluation of the monad and of the primitives: each state
    is computed before the next call reads it. *)
Tactic Notation "run_prims" :=
  cbv [mbind M_bind mret M_ret setattr getattr
    Image_create_cube set_minfilter set_magfilter _create_target _load_shader
    set_size add_color_texture prepare_offscreen_buffer set_shader_input set_shader
    host log alter_texture alter_target new_texture new_target new_shader
    self world textures targets shaders calls texture
    _stage _name _size _prefilter_map _diffuse_map _spec_pref_map _specular_map
    _targets_spec _targets_spec_filter _diffuse_target _diff_filter_target
    set__stage set__name set__size set__prefilter_map set__diffuse_map
    set__spec_pref_map set__specular_map set__targets_spec set__targets_spec_filter
    set__diffuse_target set__diff_filter_target blank_filter filter_with].
Tactic Notation "run_prims" "in" hyp(H) :=
  cbv [mbind M_bind mret M_ret setattr getattr
    Image_create_cube set_minfilter set_magfilter _create_target _load_shader
    set_size add_color_texture prepare_offscreen_buffer set_shader_input set_shader
    host log alter_texture alter_target new_texture new_target new_shader
    self world textures targets shaders calls texture
    _stage _name _size _prefilter_map _diffuse_map _spec_pref_map _specular_map
    _targets_spec _targets_spec_filter _diffuse_target _diff_filter_target
    set__stage set__name set__size set__prefilter_map set__diffuse_map
    set__spec_pref_map set__specular_map set__targets_spec set__targets_spec_filter
    set__diffuse_target set__diff_filter_target blank_filter filter_with] in H.

Lemma alter_snoc {A} (f : A -> A) (l : list A) (x : A) (r : list A) :
  alter f (length l) (l ++ x :: r) = l ++ f x :: r.
Proof. induction l as [|y l IH]; simpl; [reflexivity|]. f_equal. apply IH. Qed.

Lemma add_2_r (n : nat) : (n + 2 = S (S n))%nat.
Proof. lia. Qed.

Ltac norm_store :=
  repeat first
    [ rewrite <- app_assoc
    | rewrite length_app
    | rewrite alter_snoc
    | rewrite alter_app_r
    | progress simpl ].

(** ** The constructor *)

Lemma construct_run stage name size w :
  construct stage name size w =
  (Ok tt,
   mkSt (filter_with stage name size (length (textures w)) None None None None)
     (mkWorld (textures w ++ cube_maps name size) (targets w) (shaders w)
        (calls w ++ make_maps_calls name size (length (textures w))))).
Proof.
  destruct w as [tx tg sh cl].
  unfold construct, __init__, _make_maps. cbn [for_each].
  run_prims. norm_store. reflexivity.
Qed.

(** ** The specular chain *)

Lemma spec_chain_length name sm pm mip sizes :
  length (spec_chain name sm pm mip sizes) = (2 * length sizes)%nat.
Proof.
  revert mip. induction sizes as [|s sizes IH]; intros mip; simpl; [reflexivity|].
  rewrite IH. lia.
Qed.

Lemma every_other_length n count : length (every_other n count) = count.
Proof. revert n. induction count as [|c IH]; intros n; simpl; [|rewrite IH]; reflexivity. Qed.

Lemma every_other_lookup n count i :
  (i < count)%nat -> every_other n count !! i = Some (n + 2 * i)%nat.
Proof.
  revert n i. induction count as [|c IH]; intros n i Hi; [lia|].
  destruct i as [|i]; simpl.
  - f_equal. lia.
  - rewrite IH by lia. f_equal. lia.
Qed.

Lemma elem_of_every_other n count x :
  x ∈ every_other n count <-> exists i, (i < count)%nat /\ x = (n + 2 * i)%nat.
Proof.
  split.
  - intros Hx. apply list_elem_of_lookup in Hx as [i Hi].
    assert (i < count)%nat as Hlt.
    { apply lookup_lt_Some in Hi. rewrite every_other_length in Hi. exact Hi. }
    rewrite every_other_lookup in Hi by exact Hlt.
    exists i. split; [exact Hlt | congruence].
  - intros [i [Hlt ->]]. apply list_elem_of_lookup. exists i.
    apply every_other_lookup, Hlt.
Qed.

(** The loop from any counter and size, on a filter that has the attributes
    the loop reads: it returns, and adds one pair per value of [mipsize]. *)
Lemma spec_loop_run stage name size pf dm pm sm mipsize :
  forall mip ts fs dt dft tx tg sh cl,
  spec_loop mip mipsize
    (mkSt (mkFilter (Some stage) (Some name) size pf dm
             (Some (mkImage pm)) (Some (mkImage sm)) (Some ts) (Some fs) dt dft)
          (mkWorld tx tg sh cl)) =
  (Ok tt,
   mkSt (mkFilter (Some stage) (Some name) size pf dm
           (Some (mkImage pm)) (Some (mkImage sm))
           (Some (ts ++ every_other (length tg) (length (halvings mipsize))))
           (Some (fs ++ every_other (S (length tg)) (length (halvings mipsize))))
           dt dft)
        (mkWorld tx (tg ++ spec_chain name sm pm mip (halvings mipsize)) sh
           (cl ++ spec_chain_calls stage name sm pm (length tg) mip
                    (halvings mipsize)))).
Proof.
  funelim (halvings mipsize); intros.
  - rewrite spec_loop_equation_1, Heq.
    cbn [spec_loop_unfold_clause_1].
    run_prims.
    destruct (decide (mip = 0)) as [Hm|Hm]; norm_store; rewrite H; norm_store.
    all: rewrite !add_2_r, !Nat.add_1_r.
    all: unfold downsample_target, downsample_calls.
    + rewrite (decide_True (P := mip = 0)) by assumption. reflexivity.
    + rewrite (decide_False (P := mip = 0)) by assumption. reflexivity.
  - rewrite spec_loop_equation_1, Heq. cbn [spec_loop_unfold_clause_1].
    run_prims. simpl. rewrite !app_nil_r. reflexivity.
Qed.

Lemma make_specular_targets_run stage name size n ts fs dt dft tx tg sh cl :
  _make_specular_targets
    (mkSt (filter_with stage name size n ts fs dt dft) (mkWorld tx tg sh cl)) =
  (Ok tt,
   mkSt (filter_with stage name size n
           (Some (every_other (length tg) (length (halvings size))))
           (Some (every_other (S (length tg)) (length (halvings size))))
           dt dft)
        (mkWorld tx (tg ++ spec_chain name (n + 3) (n + 2) 0 (halvings size)) sh
           (cl ++ spec_chain_calls stage name (n + 3) (n + 2) (length tg) 0
                    (halvings size)))).
Proof.
  unfold _make_specular_targets. run_prims.
  rewrite spec_loop_run. reflexivity.
Qed.

(** ** The diffuse targets *)

Lemma make_diffuse_target_run stage name size n ts fs dt dft tx tg sh cl :
  _make_diffuse_target
    (mkSt (filter_with stage name size n ts fs dt dft) (mkWorld tx tg sh cl)) =
  (Ok tt,
   mkSt (filter_with stage name size n ts fs
           (Some (length tg)) (Some (S (length tg))))
        (mkWorld tx
           (tg ++ [integrate_target name (n + 3) n; denoise_target name n (n + 1)])
           sh
           (cl ++ diffuse_calls stage name (n + 3) n (n + 1) (length tg)))).
Proof.
  unfold _make_diffuse_target. run_prims. norm_store.
  rewrite !Nat.add_1_r. reflexivity.
Qed.

Lemma create_run stage name size n ts fs dt dft tx tg sh cl :
  create (mkSt (filter_with stage name size n ts fs dt dft) (mkWorld tx tg sh cl)) =
  (Ok tt,
   mkSt (created_filter stage name size n (length tg))
        (mkWorld tx (tg ++ created_targets name size n) sh
           (cl ++ create_calls stage name size n (length tg)))).
Proof.
  unfold create.
  unfold mbind, M_bind at 1.
  rewrite make_specular_targets_run, make_diffuse_target_run.
  unfold created_filter, created_targets, create_calls.
  rewrite length_app, spec_chain_length, <- !app_assoc. reflexivity.
Qed.

(** ** Shaders *)

Lemma for_each_set_shader s ts :
  forall o tx tg sh cl,
  for_each ts (fun target => set_shader target s) (mkSt o (mkWorld tx tg sh cl)) =
  (Ok tt,
   mkSt o (mkWorld tx (shade s ts tg) sh
             (cl ++ map (fun t => Call_set_shader t s) ts))).
Proof.
  induction ts as [|t ts IH]; intros o tx tg sh cl.
  - simpl. rewrite app_nil_r. reflexivity.
  - cbn [for_each]. unfold mbind, M_bind at 1. run_prims.
    rewrite IH. rewrite <- app_assoc. reflexivity.
Qed.

Lemma set_shaders_run stage nm sz pf dm pm sm ts fs dt dft tx tg sh cl :
  set_shaders
    (mkSt (mkFilter (Some stage) nm sz pf dm pm sm
             (Some ts) (Some fs) (Some dt) (Some dft))
          (mkWorld tx tg sh cl)) =
  (Ok tt,
   mkSt (mkFilter (Some stage) nm sz pf dm pm sm
           (Some ts) (Some fs) (Some dt) (Some dft))
        (mkWorld tx (shaded (length sh) dt dft ts fs tg) (sh ++ shader_paths)
           (cl ++ set_shaders_calls stage (length sh) dt dft ts fs))).
Proof.
  pose proof for_each_set_shader as F. run_prims in F.
  unfold set_shaders. run_prims.
  rewrite F. run_prims. rewrite F.
  unfold shaded, set_shaders_calls, shader_paths. norm_store. reflexivity.
Qed.

(** Before [create], [set_shaders] raises on its first attribute and does
    nothing else. *)
Lemma set_shaders_raise st :
  _diffuse_target (self st) = None ->
  set_shaders st = (Raise (AttributeError "_diffuse_target"), st).
Proof.
  intros H. unfold set_shaders, mbind, M_bind, getattr. rewrite H. reflexivity.
Qed.

Lemma shade_length s ts tg : length (shade s ts tg) = length tg.
Proof.
  revert tg. induction ts as [|t ts IH]; intros tg; simpl; [reflexivity|].
  rewrite IH. apply length_alter.
Qed.

Lemma shade_lookup_notin s ts tg (t : nat) :
  t ∉ ts -> shade s ts tg !! t = tg !! t.
Proof.
  revert tg. induction ts as [|a ts IH]; intros tg Hn; simpl; [reflexivity|].
  apply not_elem_of_cons in Hn as [Hne Hn].
  rewrite IH by exact Hn. apply list_lookup_alter_ne. congruence.
Qed.

Lemma shade_lookup_in s ts tg (t : nat) :
  t ∈ ts -> shade s ts tg !! t = with_shader s <$> tg !! t.
Proof.
  revert tg. induction ts as [|a ts IH]; intros tg Hin; [inversion Hin|].
  simpl. destruct (decide (t ∈ ts)) as [Hts|Hts].
  - rewrite IH by exact Hts.
    destruct (decide (a = t)) as [->|Hne].
    + rewrite list_lookup_alter_eq. destruct (tg !! t); reflexivity.
    + rewrite list_lookup_alter_ne by exact Hne. reflexivity.
  - apply elem_of_cons in Hin as [->|Hin]; [|contradiction].
    rewrite shade_lookup_notin by exact Hts. apply list_lookup_alter_eq.
Qed.

(** ** The values of [mipsize] *)

Lemma halvings_unroll m : m >= 2 -> halvings m = m / 2 :: halvings (m / 2).
Proof.
  intros H. rewrite halvings_equation_1.
  destruct (decide (m >= 2)); [reflexivity | contradiction].
Qed.

Lemma halvings_stop m : m < 2 -> halvings m = [].
Proof.
  intros H. rewrite halvings_equation_1.
  destruct (decide (m >= 2)); [lia | reflexivity].
Qed.

(** Floor halving is strictly decreasing from 2 on, and stays positive. *)
Lemma halve_decreases m : m >= 2 -> 1 <= m / 2 < m.
Proof. intros H. Z.div_mod_to_equations. lia. Qed.

Lemma log2_halve m : m >= 2 -> Z.log2 m = Z.log2 (m / 2) + 1.
Proof.
  intros H. pose proof (halve_decreases m H) as [Hlo Hhi].
  pose proof (Z.log2_nonneg (m / 2)) as Hk.
  destruct (Z.log2_spec (m / 2)) as [Hle Hlt]; [lia|].
  apply Z.log2_unique; [lia|].
  replace (Z.succ (Z.log2 (m / 2) + 1)) with (Z.succ (Z.succ (Z.log2 (m / 2)))) by lia.
  rewrite Z.add_1_r, !Z.pow_succ_r by lia.
  rewrite Z.pow_succ_r in Hlt by lia.
  Z.div_mod_to_equations. lia.
Qed.

(** The loop runs [Z.log2] of its starting size many times. *)
Lemma halvings_length m : Z.of_nat (length (halvings m)) = Z.log2 m.
Proof.
  funelim (halvings m).
  - cbn [length]. rewrite Nat2Z.inj_succ, H, (log2_halve mipsize) by exact g. lia.
  - simpl. destruct (Z.le_gt_cases mipsize 0) as [Hle|Hgt].
    + symmetry. apply Z.log2_nonpos, Hle.
    + replace mipsize with 1 by lia. reflexivity.
Qed.

Lemma halvings_pow2 (k : nat) :
  halvings (2 ^ Z.of_nat (S k)) = 2 ^ Z.of_nat k :: halvings (2 ^ Z.of_nat k).
Proof.
  assert (2 ^ Z.of_nat (S k) = 2 * 2 ^ Z.of_nat k) as E.
  { rewrite Nat2Z.inj_succ, Z.pow_succ_r by lia. reflexivity. }
  assert (0 < 2 ^ Z.of_nat k) as Hpos by (apply Z.pow_pos_nonneg; lia).
  rewrite halvings_unroll by lia.
  rewrite E. replace (2 * 2 ^ Z.of_nat k / 2) with (2 ^ Z.of_nat k); [reflexivity|].
  Z.div_mod_to_equations. lia.
Qed.

Lemma halvings_pow2_length (k : nat) : length (halvings (2 ^ Z.of_nat k)) = k.
Proof.
  apply Nat2Z.inj. rewrite halvings_length. apply Z.log2_pow2. lia.
Qed.

Lemma halvings_pow2_lookup (k i : nat) :
  (i < k)%nat ->
  halvings (2 ^ Z.of_nat k) !! i = Some (2 ^ (Z.of_nat k - Z.of_nat i - 1)).
Proof.
  revert i. induction k as [|k IH]; intros i Hi; [lia|].
  rewrite halvings_pow2. destruct i as [|i].
  - simpl. do 2 f_equal. lia.
  - cbn [lookup list_lookup]. rewrite IH by lia. do 2 f_equal. lia.
Qed.

(** The loop body never sees a size below 1. *)
Lemma halvings_ge_1 m : forall s, s ∈ halvings m -> 1 <= s.
Proof.
  funelim (halvings m); intros s Hs.
  - apply elem_of_cons in Hs as [->|Hs]; [|exact (H s Hs)].
    pose proof (halve_decreases mipsize g). lia.
  - inversion Hs.
Qed.

(** The [i]-th iteration sees the size halved [i + 1] times. *)
Lemma halvings_lookup (i : nat) :
  forall m, (i < length (halvings m))%nat ->
  halvings m !! i = Some (m / 2 ^ (Z.of_nat i + 1)).
Proof.
  induction i as [|i IH]; intros m Hi.
  - destruct (Z_lt_ge_dec m 2) as [Hlt|Hge].
    + rewrite halvings_stop in Hi by exact Hlt. simpl in Hi. lia.
    + rewrite halvings_unroll by exact Hge. reflexivity.
  - destruct (Z_lt_ge_dec m 2) as [Hlt|Hge].
    + rewrite halvings_stop in Hi by exact Hlt. simpl in Hi. lia.
    + rewrite halvings_unroll in Hi |- * by exact Hge.
      cbn [length] in Hi.
      change ((m / 2 :: halvings (m / 2)) !! S i) with (halvings (m / 2) !! i).
      rewrite IH by lia. f_equal.
      assert (0 < 2 ^ (Z.of_nat i + 1)) as Hpos by (apply Z.pow_pos_nonneg; lia).
      rewrite Z.div_div by lia.
      replace (Z.of_nat (S i) + 1) with (Z.succ (Z.of_nat i + 1)) by lia.
      rewrite Z.pow_succ_r by lia. reflexivity.
Qed.

(** ** Whole runs *)

Lemma built_run stage name size w :
  and_then (construct stage name size w) create =
  (Ok tt,
   mkSt (created_filter stage name size (length (textures w)) (length (targets w)))
     (mkWorld (textures w ++ cube_maps name size)
        (targets w ++ created_targets name size (length (textures w)))
        (shaders w)
        (calls w ++ make_maps_calls name size (length (textures w))
                 ++ create_calls stage name size (length (textures w))
                      (length (targets w))))).
Proof.
  rewrite construct_run. cbn [and_then]. rewrite create_run.
  rewrite <- app_assoc. reflexivity.
Qed.

Lemma session_run stage name size w :
  session stage name size w =
  (Ok tt,
   mkSt (created_filter stage name size (length (textures w)) (length (targets w)))
     (mkWorld (textures w ++ cube_maps name size)
        (shaded (length (shaders w))
           (length (targets w) + 2 * length (halvings size))
           (S (length (targets w) + 2 * length (halvings size)))
           (every_other (length (targets w)) (length (halvings size)))
           (every_other (S (length (targets w))) (length (halvings size)))
           (targets w ++ created_targets name size (length (textures w))))
        (shaders w ++ shader_paths)
        (calls w ++ session_calls stage name size (length (textures w))
                      (length (targets w)) (length (shaders w))))).
Proof.
  unfold session. rewrite built_run. cbn [and_then].
  unfold created_filter, filter_with. rewrite set_shaders_run.
  unfold session_calls. rewrite <- !app_assoc. reflexivity.
Qed.

Lemma spec_chain_lookup name sm pm sizes :
  forall mip (i : nat) s,
  sizes !! i = Some s ->
  spec_chain name sm pm mip sizes !! (2 * i)%nat
    = Some (downsample_target name sm pm (mip + Z.of_nat i) s) /\
  spec_chain name sm pm mip sizes !! S (2 * i)
    = Some (filter_target name sm pm (mip + Z.of_nat i + 1) s).
Proof.
  induction sizes as [|s0 sizes IH]; intros mip i s Hs; [inversion Hs|].
  destruct i as [|i].
  - injection Hs as ->. cbn [spec_chain]. change (2 * 0)%nat with 0%nat.
    cbn [lookup list_lookup]. rewrite Z.add_0_r. split; reflexivity.
  - cbn [spec_chain].
    replace (2 * S i)%nat with (S (S (2 * i))) by lia.
    replace (mip + Z.of_nat (S i)) with (mip + 1 + Z.of_nat i) by lia.
    exact (IH (mip + 1) i s Hs).
Qed.

(** The [i]-th pair of the chain among the targets of the host after
    [create]. *)
Lemma created_pair_lookup name size n (tg rest : list RenderTarget) (i : nat) s :
  halvings size !! i = Some s ->
  (tg ++ created_targets name size n ++ rest) !! (length tg + 2 * i)%nat
    = Some (downsample_target name (n + 3) (n + 2) (Z.of_nat i) s) /\
  (tg ++ created_targets name size n ++ rest) !! S (length tg + 2 * i)
    = Some (filter_target name (n + 3) (n + 2) (Z.of_nat i + 1) s).
Proof.
  intros Hs.
  destruct (spec_chain_lookup name (n + 3) (n + 2) _ 0 i s Hs) as [Hd Hf].
  rewrite Z.add_0_l in Hd, Hf.
  unfold created_targets. rewrite <- !app_assoc. split.
  - rewrite lookup_app_r by lia.
    replace (length tg + 2 * i - length tg)%nat with (2 * i)%nat by lia.
    apply lookup_app_l_Some, Hd.
  - rewrite lookup_app_r by lia.
    replace (S (length tg + 2 * i) - length tg)%nat with (S (2 * i)) by lia.
    apply lookup_app_l_Some, Hf.
Qed.

(** The two diffuse targets among the targets of the host after [create]. *)
Lemma created_diffuse_lookup name size n (tg : list RenderTarget) :
  (tg ++ created_targets name size n) !! (length tg + 2 * length (halvings size))%nat
    = Some (integrate_target name (n + 3) n) /\
  (tg ++ created_targets name size n) !! S (length tg + 2 * length (halvings size))
    = Some (denoise_target name n (n + 1)).
Proof.
  unfold created_targets.
  pose proof (spec_chain_length name (n + 3) (n + 2) 0 (halvings size)) as L.
  split.
  - rewrite lookup_app_r by lia. rewrite lookup_app_r by lia.
    replace (_ - _ - _)%nat with 0%nat by lia. reflexivity.
  - rewrite lookup_app_r by lia. rewrite lookup_app_r by lia.
    replace (_ - _ - _)%nat with 1%nat by lia. reflexivity.
Qed.

Lemma created_targets_length name size n :
  length (created_targets name size n) = (2 * length (halvings size) + 2)%nat.
Proof.
  unfold created_targets. rewrite length_app, spec_chain_length. simpl. lia.
Qed.

(** ** The life of a filter *)

Lemma construct_alive stage name size w :
  alive stage name size w (construct stage name size w).2.
Proof.
  rewrite construct_run. split; [|split].
  - exists None, None, None, None. reflexivity.
  - left. repeat split.
  - reflexivity.
Qed.

Lemma run_op_alive stage name size w o st :
  alive stage name size w st -> alive stage name size w (run_op o st).2.
Proof.
  intros [[ts [fs [dt [dft Hself]]]] [Hc Htx]].
  destruct st as [me [tx tg sh cl]]. cbn [self world textures] in *. subst me.
  destruct o; cbn [run_op].
  - rewrite create_run. split; [|split].
    + eexists _, _, _, _. reflexivity.
    + right. repeat split; eexists; reflexivity.
    + exact Htx.
  - destruct Hc as [Hnone | [[ts' Hts] [[fs' Hfs] [[dt' Hdt] [dft' Hdft]]]]].
    + pose proof Hnone as [_ [_ [Hd _]]].
      rewrite set_shaders_raise by exact Hd. split; [|split].
      * exists ts, fs, dt, dft. reflexivity.
      * left. exact Hnone.
      * exact Htx.
    + cbn in Hts, Hfs, Hdt, Hdft. subst ts fs dt dft.
      unfold filter_with. rewrite set_shaders_run. split; [|split].
      * eexists _, _, _, _. reflexivity.
      * right. repeat split; eexists; reflexivity.
      * exact Htx.
Qed.

Lemma run_ops_alive stage name size w ops :
  forall st, alive stage name size w st -> alive stage name size w (run_ops ops st).
Proof.
  induction ops as [|o ops IH]; intros st H; [exact H|].
  cbn [run_ops]. apply IH, run_op_alive, H.
Qed.

(** ** Shader inputs and shaders of the targets *)

Lemma input_lookup_1 (k1 k2 k3 : string) (v1 v2 v3 : ShaderInput) :
  k1 <> k2 -> k1 <> k3 ->
  (<[k3 := v3]> (<[k2 := v2]> (<[k1 := v1]> (∅ : gmap string ShaderInput)))) !! k1
    = Some v1.
Proof.
  intros H2 H3.
  rewrite lookup_insert_ne by congruence.
  rewrite lookup_insert_ne by congruence.
  apply lookup_insert_eq.
Qed.

Lemma input_lookup_2 (k1 k2 k3 : string) (v1 v2 v3 : ShaderInput) :
  k2 <> k3 ->
  (<[k3 := v3]> (<[k2 := v2]> (<[k1 := v1]> (∅ : gmap string ShaderInput)))) !! k2
    = Some v2.
Proof.
  intros H3. rewrite lookup_insert_ne by congruence. apply lookup_insert_eq.
Qed.

Lemma input_lookup_3 (k1 k2 k3 : string) (v1 v2 v3 : ShaderInput) :
  (<[k3 := v3]> (<[k2 := v2]> (<[k1 := v1]> (∅ : gmap string ShaderInput)))) !! k3
    = Some v3.
Proof. apply lookup_insert_eq. Qed.

Lemma shader_at_alter_eq s (t : nat) tg :
  (t < length tg)%nat -> shader_at (alter (with_shader s) t tg) t = Some s.
Proof.
  intros Hlt. unfold shader_at. rewrite list_lookup_alter_eq.
  destruct (lookup_lt_is_Some_2 tg t Hlt) as [x ->]. reflexivity.
Qed.

Lemma shader_at_alter_ne s (t t' : nat) tg :
  t <> t' -> shader_at (alter (with_shader s) t' tg) t = shader_at tg t.
Proof.
  intros Hne. unfold shader_at.
  rewrite list_lookup_alter_ne by congruence. reflexivity.
Qed.

Lemma shader_at_shade_in s ts tg (t : nat) :
  t ∈ ts -> (t < length tg)%nat -> shader_at (shade s ts tg) t = Some s.
Proof.
  intros Hin Hlt. unfold shader_at. rewrite shade_lookup_in by exact Hin.
  destruct (lookup_lt_is_Some_2 tg t Hlt) as [x ->]. reflexivity.
Qed.

Lemma shader_at_shade_notin s ts tg (t : nat) :
  t ∉ ts -> shader_at (shade s ts tg) t = shader_at tg t.
Proof.
  intros Hn. unfold shader_at. rewrite shade_lookup_notin by exact Hn. reflexivity.
Qed.

Lemma shaded_length s dt dft ts fs tg :
  length (shaded s dt dft ts fs tg) = length tg.
Proof. unfold shaded. rewrite !shade_length, !length_alter. reflexivity. Qed.

(** The shaders after [set_shaders] on targets laid out as [create] lays
    them out: [count] pairs from [t0] on, then the two diffuse targets. *)
Lemma shaded_layout s (t0 count : nat) tg :
  let dt := (t0 + 2 * count)%nat in
  let ts := every_other t0 count in
  let fs := every_other (S t0) count in
  let tg' := shaded s dt (S dt) ts fs tg in
  (S dt < length tg)%nat ->
  shader_at tg' dt = Some s /\
  shader_at tg' (S dt) = Some (s + 1)%nat /\
  (forall t, t ∈ ts -> shader_at tg' t = Some (s + 2)%nat) /\
  (forall t, t ∈ fs -> shader_at tg' t = Some (s + 3)%nat) /\
  (forall t, (t < t0)%nat -> shader_at tg' t = shader_at tg t) /\
  (forall t, (t0 <= t <= S dt)%nat -> t = dt \/ t = S dt \/ t ∈ ts \/ t ∈ fs).
Proof.
  intros dt ts fs tg' Hlen.
  assert (forall t, t ∈ ts -> exists i, (i < count)%nat /\ t = (t0 + 2 * i)%nat) as Hts.
  { intros t. apply elem_of_every_other. }
  assert (forall t, t ∈ fs -> exists i, (i < count)%nat /\ t = (S t0 + 2 * i)%nat) as Hfs.
  { intros t. apply elem_of_every_other. }
  assert (forall t, (forall i, t <> (t0 + 2 * i)%nat) -> t ∉ ts) as Nts.
  { intros t Hne Hin. destruct (Hts t Hin) as [i [_ ->]]. exact (Hne i eq_refl). }
  assert (forall t, (forall i, t <> (S t0 + 2 * i)%nat) -> t ∉ fs) as Nfs.
  { intros t Hne Hin. destruct (Hfs t Hin) as [i [_ ->]]. exact (Hne i eq_refl). }
  assert (dt ∉ ts) as Hdt_ts.
  { intros Hin. destruct (Hts _ Hin) as [i [Hi E]]. unfold dt in E. lia. }
  assert (S dt ∉ fs) as Hdft_fs.
  { intros Hin. destruct (Hfs _ Hin) as [i [Hi E]]. unfold dt in E. lia. }
  subst tg'. unfold shaded. repeat split.
  - rewrite shader_at_shade_notin by (apply Nfs; unfold dt; lia).
    rewrite shader_at_shade_notin by exact Hdt_ts.
    rewrite shader_at_alter_ne by lia.
    apply shader_at_alter_eq. lia.
  - rewrite shader_at_shade_notin by exact Hdft_fs.
    rewrite shader_at_shade_notin by (apply Nts; unfold dt; lia).
    apply shader_at_alter_eq. rewrite length_alter. lia.
  - intros t Hin. destruct (Hts t Hin) as [i [Hi ->]].
    rewrite shader_at_shade_notin by (apply Nfs; lia).
    apply shader_at_shade_in; [exact Hin|]. rewrite !length_alter. unfold dt in Hlen. lia.
  - intros t Hin. destruct (Hfs t Hin) as [i [Hi ->]].
    apply shader_at_shade_in; [exact Hin|].
    rewrite shade_length, !length_alter. unfold dt in Hlen. lia.
  - intros t Hlt.
    rewrite shader_at_shade_notin by (apply Nfs; lia).
    rewrite shader_at_shade_notin by (apply Nts; lia).
    rewrite !shader_at_alter_ne by (unfold dt; lia). reflexivity.
  - intros t [Hlo Hhi].
    destruct (decide (t = dt)) as [|Hn1]; [left; assumption|].
    destruct (decide (t = S dt)) as [|Hn2]; [right; left; assumption|].
    right; right.
    destruct (Nat.Even_or_Odd (t - t0)) as [[i Hi] | [i Hi]].
    + left. apply elem_of_every_other. exists i. unfold dt in *. lia.
    + right. apply elem_of_every_other. exists i. unfold dt in *. lia.
Qed.

Lemma issued_app w cl' tx tg sh :
  issued w (mkWorld tx tg sh (calls w ++ cl')) = cl'.
Proof. unfold issued. cbn [calls]. apply drop_app_length. Qed.

(** ** Concrete runs *)

Example halvings_256 : halvings 256 = [128; 64; 32; 16; 8; 4; 2; 1].
Proof. vm_compute. reflexivity. Qed.

Example halvings_10 : halvings 10 = [5; 2; 1].
Proof. vm_compute. reflexivity. Qed.

Example halvings_below_2 : (halvings 1, halvings 0, halvings (-8)) = ([], [], []).
Proof. vm_compute. reflexivity. Qed.

(** Every call of a session of size 2 on stage 7 of a host with nothing
    in it. *)
Example session_2_calls :
  calls (world (session 7%nat "Cubemap" 2 empty_world).2) =
  [ Call_create_cube "CubemapIBLPrefDiff" 32 T_float F_r11_g11_b10;
    Call_create_cube "CubemapIBLDiff" 10 T_float F_r11_g11_b10;
    Call_create_cube "CubemapIBLPrefSpec" 2 T_float F_r11_g11_b10;
    Call_create_cube "CubemapIBLSpec" 2 T_float F_r11_g11_b10;
    Call_set_minfilter 1 FT_linear; Call_set_magfilter 1 FT_linear;
    Call_set_minfilter 3 FT_linear; Call_set_magfilter 3 FT_linear;
    Call_set_minfilter 0 FT_linear; Call_set_magfilter 0 FT_linear;
    Call_set_minfilter 2 FT_linear_mipmap_linear;
    Call_set_minfilter 3 FT_linear_mipmap_linear;
    Call_create_target 7 "CubemapSpecIBL-1";
    Call_set_size 0 6 1;
    Call_prepare_offscreen_buffer 0;
    Call_set_shader_input 0 "SourceTex" (SI_texture 3);
    Call_set_shader_input 0 "DestMipmap" (SI_image 2 false true (-1) 1 0);
    Call_set_shader_input 0 "currentMip" (SI_int 0);
    Call_create_target 7 "CubemapSpecIBLFilter-1";
    Call_set_size 1 6 1;
    Call_prepare_offscreen_buffer 1;
    Call_set_shader_input 1 "currentMip" (SI_int 1);
    Call_set_shader_input 1 "SourceTex" (SI_texture 2);
    Call_set_shader_input 1 "DestMipmap" (SI_image 3 false true (-1) 1 0);
    Call_create_target 7 "CubemapDiffuseIBL";
    Call_set_size 2 192 32;
    Call_add_color_texture 2;
    Call_prepare_offscreen_buffer 2;
    Call_set_shader_input 2 "SourceCubemap" (SI_texture 3);
    Call_set_shader_input 2 "DestCubemap" (SI_texture 0);
    Call_set_shader_input 2 "cubeSize" (SI_int 32);
    Call_create_target 7 "CubemapDiffPrefIBL";
    Call_set_size 3 60 10;
    Call_add_color_texture 3;
    Call_prepare_offscreen_buffer 3;
    Call_set_shader_input 3 "SourceCubemap" (SI_texture 0);
    Call_set_shader_input 3 "DestCubemap" (SI_texture 1);
    Call_set_shader_input 3 "cubeSize" (SI_int 10);
    Call_load_shader 7 "Stages/IBLCubemapDiffuse.frag"; Call_set_shader 2 0;
    Call_load_shader 7 "Stages/IBLCubemapDiffFilter.frag"; Call_set_shader 3 1;
    Call_load_shader 7 "Stages/IBLCubemapSpecular.frag"; Call_set_shader 0 2;
    Call_load_shader 7 "Stages/IBLCubemapSpecularFilter.frag"; Call_set_shader 1 3 ].
Proof. vm_compute. reflexivity. Qed.

(** A size that is no power of two: the chain follows the floor halvings
    5, 2, 1. *)
Example create_10_targets :
  map (fun x => (tgt_name x, tgt_size x))
    (targets (world (and_then (construct 7%nat "Cubemap" 10 empty_world) create).2)) =
  [ ("CubemapSpecIBL-5", Some (30, 5)); ("CubemapSpecIBLFilter-5", Some (30, 5));
    ("CubemapSpecIBL-2", Some (12, 2)); ("CubemapSpecIBLFilter-2", Some (12, 2));
    ("CubemapSpecIBL-1", Some (6, 1)); ("CubemapSpecIBLFilter-1", Some (6, 1));
    ("CubemapDiffuseIBL", Some (192, 32)); ("CubemapDiffPrefIBL", Some (60, 10)) ].
Proof. vm_compute. reflexivity. Qed.

(** The default arguments: eight pairs. *)
Example default_session_filter :
  self (session 0%nat default_name default_size empty_world).2 =
  mkFilter (Some 0%nat) (Some "Cubemap") (Some 256)
    (Some (mkImage 0)) (Some (mkImage 1)) (Some (mkImage 2)) (Some (mkImage 3))
    (Some [0; 2; 4; 6; 8; 10; 12; 14]%nat) (Some [1; 3; 5; 7; 9; 11; 13; 15]%nat)
    (Some 16%nat) (Some 17%nat).
Proof. vm_compute. reflexivity. Qed.

Example set_shaders_before_create :
  (set_shaders (construct 0%nat "Cubemap" 4 empty_world).2).1
    = Raise (AttributeError "_diffuse_target").
Proof. vm_compute. reflexivity. Qed.

(** ** The claims *)

(** C1: for a constructor size [2 ^ k] with [k >= 1], [create] returns and
    leaves [k] downsample targets and [k] filter targets, one pair per mip
    level: the host gains the [2 * k] targets of the chain followed by the
    two diffuse targets, the [i]-th pair ([i = 1..k]) is the [i]-th entry
    of [_targets_spec] and of [_targets_spec_filter], both of its targets
    have the render size [(2 ^ (k - i) * 6) x 2 ^ (k - i)], and the last
    pair is [6 x 1]. *)
Theorem specular_chain_pairs (stage : nat) (name : string) (k : nat) (w : World) :
  (1 <= k)%nat ->
  exists st ts fs chain diffuse,
    and_then (construct stage name (2 ^ Z.of_nat k) w) create = (Ok tt, st) /\
    _targets_spec (self st) = Some ts /\
    _targets_spec_filter (self st) = Some fs /\
    length ts = k /\ length fs = k /\
    targets (world st) = targets w ++ chain ++ diffuse /\
    length chain = (2 * k)%nat /\ length diffuse = 2%nat /\
    (forall i : nat, (1 <= i <= k)%nat ->
       exists td tf,
         ts !! (i - 1)%nat = Some (length (targets w) + 2 * (i - 1))%nat /\
         fs !! (i - 1)%nat = Some (S (length (targets w) + 2 * (i - 1))) /\
         chain !! (2 * (i - 1))%nat = Some td /\
         chain !! S (2 * (i - 1)) = Some tf /\
         targets (world st) !! (length (targets w) + 2 * (i - 1))%nat = Some td /\
         targets (world st) !! S (length (targets w) + 2 * (i - 1)) = Some tf /\
         tgt_name td = (name +:+ "SpecIBL-") +:+ str (2 ^ (Z.of_nat k - Z.of_nat i)) /\
         tgt_name tf = (name +:+ "SpecIBLFilter-") +:+ str (2 ^ (Z.of_nat k - Z.of_nat i)) /\
         tgt_size td = Some (2 ^ (Z.of_nat k - Z.of_nat i) * 6,
                             2 ^ (Z.of_nat k - Z.of_nat i)) /\
         tgt_size tf = Some (2 ^ (Z.of_nat k - Z.of_nat i) * 6,
                             2 ^ (Z.of_nat k - Z.of_nat i))) /\
    (exists td tf,
       chain !! (2 * (k - 1))%nat = Some td /\
       chain !! S (2 * (k - 1)) = Some tf /\
       tgt_size td = Some (6, 1) /\ tgt_size tf = Some (6, 1)).
Proof.
  intros Hk.
  set (n := length (textures w)).
  pose proof (halvings_pow2_length k) as HL.
  assert (forall i : nat, (1 <= i <= k)%nat ->
            halvings (2 ^ Z.of_nat k) !! (i - 1)%nat
              = Some (2 ^ (Z.of_nat k - Z.of_nat i))) as Hsize.
  { intros i Hi. rewrite halvings_pow2_lookup by lia. do 2 f_equal. lia. }
  eexists _, _, _,
    (spec_chain name (n + 3) (n + 2) 0 (halvings (2 ^ Z.of_nat k))),
    [integrate_target name (n + 3) n; denoise_target name n (n + 1)].
  split; [apply built_run|].
  cbn [self world targets created_filter filter_with
       _targets_spec _targets_spec_filter].
  rewrite !every_other_length, spec_chain_length, HL.
  repeat split.
  - intros i Hi.
    destruct (spec_chain_lookup name (n + 3) (n + 2) _ 0 _ _ (Hsize i Hi)) as [Hd Hf].
    destruct (created_pair_lookup name _ n (targets w) [] _ _ (Hsize i Hi)) as [Hd' Hf'].
    rewrite app_nil_r in Hd', Hf'.
    eexists _, _.
    repeat split;
      [ apply every_other_lookup; lia
      | rewrite every_other_lookup by lia; reflexivity
      | exact Hd | exact Hf | exact Hd' | exact Hf' | reflexivity .. ].
  - destruct (spec_chain_lookup name (n + 3) (n + 2) _ 0 _ _ (Hsize k ltac:(lia)))
      as [Hd Hf].
    rewrite Z.sub_diag in Hd, Hf.
    eexists _, _. repeat split; [exact Hd | exact Hf | reflexivity ..].
Qed.

(** The witness of C1: size 4 on a host with nothing in it. *)
Lemma specular_chain_pairs_witness :
  (1 <= 2)%nat /\
  exists st ts fs chain diffuse,
    and_then (construct 0%nat "Cubemap" (2 ^ Z.of_nat 2) (mkWorld [] [] [] [])) create
      = (Ok tt, st) /\
    _targets_spec (self st) = Some ts /\
    _targets_spec_filter (self st) = Some fs /\
    length ts = 2%nat /\ length fs = 2%nat /\
    targets (world st) = [] ++ chain ++ diffuse /\
    length chain = 4%nat /\ length diffuse = 2%nat.
Proof.
  split; [lia|].
  destruct (specular_chain_pairs 0%nat "Cubemap" 2 (mkWorld [] [] [] []) ltac:(lia))
    as (st & ts & fs & chain & diffuse & H1 & H2 & H3 & H4 & H5 & H6 & H7 & H8 & _).
  exists st, ts, fs, chain, diffuse. repeat split; assumption.
Defined.

(** C2: the constructor makes exactly four calls to the image factory, all
    for float cube maps in the [F_r11_g11_b10] format: the prefilter map of
    size 32, the diffuse map of size 10 whatever the constructor's size,
    and the specular prefilter map and the specular map of the
    constructor's size.  The host gains these four textures and the
    attributes of the filter name them. *)
Theorem four_cube_maps (stage : nat) (name : string) (size : Z) (w : World) :
  exists st pf dm pm sm tpf tdm tpm tsm,
    construct stage name size w = (Ok tt, st) /\
    List.filter is_create_cube (issued w (world st)) =
      [ Call_create_cube (name +:+ "IBLPrefDiff") 32 T_float F_r11_g11_b10;
        Call_create_cube (name +:+ "IBLDiff") 10 T_float F_r11_g11_b10;
        Call_create_cube (name +:+ "IBLPrefSpec") size T_float F_r11_g11_b10;
        Call_create_cube (name +:+ "IBLSpec") size T_float F_r11_g11_b10 ] /\
    textures (world st) = textures w ++ [tpf; tdm; tpm; tsm] /\
    _prefilter_map (self st) = Some (mkImage pf) /\
    _diffuse_map (self st) = Some (mkImage dm) /\
    _spec_pref_map (self st) = Some (mkImage pm) /\
    _specular_map (self st) = Some (mkImage sm) /\
    textures (world st) !! pf = Some tpf /\
    textures (world st) !! dm = Some tdm /\
    textures (world st) !! pm = Some tpm /\
    textures (world st) !! sm = Some tsm /\
    float_cube_map PREFILTER_CUBEMAP_SIZE tpf /\ PREFILTER_CUBEMAP_SIZE = 32 /\
    float_cube_map DIFFUSE_CUBEMAP_SIZE tdm /\ DIFFUSE_CUBEMAP_SIZE = 10 /\
    float_cube_map size tpm /\
    float_cube_map size tsm.
Proof.
  eexists _, _, _, _, _, _, _, _, _.
  split; [apply construct_run|].
  unfold issued. cbn [self world textures calls filter_with _prefilter_map
    _diffuse_map _spec_pref_map _specular_map].
  rewrite drop_app_length.
  split; [reflexivity|]. split; [reflexivity|].
  do 4 (split; [reflexivity|]).
  split; [rewrite lookup_app_r by lia; rewrite Nat.sub_diag; reflexivity|].
  split; [rewrite lookup_app_r by lia;
          replace (_ - _)%nat with 1%nat by lia; reflexivity|].
  split; [rewrite lookup_app_r by lia;
          replace (_ - _)%nat with 2%nat by lia; reflexivity|].
  split; [rewrite lookup_app_r by lia;
          replace (_ - _)%nat with 3%nat by lia; reflexivity|].
  unfold float_cube_map. repeat split.
Qed.

(** C3: for a constructor size [2 ^ k], the downsample target of mip [m]
    ([m = 0..k-1]) reads [SourceTex] from the specular map when [m = 0] and
    from the specular prefilter map otherwise, writes [DestMipmap] into the
    specular prefilter map at level [m + 1] and has [currentMip = m]; the
    filter target paired with it reads the specular prefilter map, writes
    [DestMipmap] into the specular map at level [m + 1] and has
    [currentMip = m + 1]. *)
Theorem specular_chain_bindings (stage : nat) (name : string) (k : nat) (w : World) :
  exists st ts fs sm pm,
    and_then (construct stage name (2 ^ Z.of_nat k) w) create = (Ok tt, st) /\
    _targets_spec (self st) = Some ts /\
    _targets_spec_filter (self st) = Some fs /\
    _specular_map (self st) = Some (mkImage sm) /\
    _spec_pref_map (self st) = Some (mkImage pm) /\
    sm <> pm /\
    forall m : nat, (m < k)%nat ->
      exists d f td tf,
        ts !! m = Some d /\ fs !! m = Some f /\
        targets (world st) !! d = Some td /\
        targets (world st) !! f = Some tf /\
        tgt_inputs td !! "SourceTex"
          = Some (SI_texture (if decide (m = 0%nat) then sm else pm)) /\
        tgt_inputs td !! "DestMipmap"
          = Some (SI_image pm false true (-1) (Z.of_nat m + 1) 0) /\
        tgt_inputs td !! "currentMip" = Some (SI_int (Z.of_nat m)) /\
        tgt_inputs tf !! "SourceTex" = Some (SI_texture pm) /\
        tgt_inputs tf !! "DestMipmap"
          = Some (SI_image sm false true (-1) (Z.of_nat m + 1) 0) /\
        tgt_inputs tf !! "currentMip" = Some (SI_int (Z.of_nat m + 1)).
Proof.
  set (n := length (textures w)).
  pose proof (halvings_pow2_length k) as HL.
  eexists _, _, _, (n + 3)%nat, (n + 2)%nat.
  split; [apply built_run|].
  cbn [self world targets created_filter filter_with
       _targets_spec _targets_spec_filter _specular_map _spec_pref_map].
  repeat split; [lia|].
  intros m Hm. rewrite HL.
  destruct (created_pair_lookup name _ n (targets w) [] m _
              (halvings_pow2_lookup k m Hm)) as [Hd Hf].
  rewrite app_nil_r in Hd, Hf.
  eexists _, _, _, _.
  split; [apply every_other_lookup, Hm|].
  split; [apply every_other_lookup, Hm|].
  split; [exact Hd|]. split; [exact Hf|].
  cbn [tgt_inputs downsample_target filter_target].
  split; [|split; [|split; [|split; [|split]]]].
  - rewrite input_lookup_1 by discriminate.
    destruct (decide (m = 0%nat)) as [->|Hne]; [reflexivity|].
    rewrite decide_False by lia. reflexivity.
  - apply input_lookup_2. discriminate.
  - apply input_lookup_3.
  - apply input_lookup_2. discriminate.
  - apply input_lookup_3.
  - apply input_lookup_1; discriminate.
Qed.

(** C4: for every size, [create] adds exactly two targets after the pairs
    of the specular chain: the integration target, of render size
    [32 * 6 x 32], with [SourceCubemap] the specular map, [DestCubemap] the
    prefilter map and [cubeSize = 32], and the denoise target, of render
    size [10 * 6 x 10], with [SourceCubemap] the prefilter map,
    [DestCubemap] the diffuse map and [cubeSize = 10]. *)
Theorem diffuse_targets_wired (stage : nat) (name : string) (size : Z) (w : World) :
  exists st ts dt dft sm pf dm chain tint tden,
    and_then (construct stage name size w) create = (Ok tt, st) /\
    _targets_spec (self st) = Some ts /\
    _diffuse_target (self st) = Some dt /\
    _diff_filter_target (self st) = Some dft /\
    _specular_map (self st) = Some (mkImage sm) /\
    _prefilter_map (self st) = Some (mkImage pf) /\
    _diffuse_map (self st) = Some (mkImage dm) /\
    targets (world st) = targets w ++ chain ++ [tint; tden] /\
    length chain = (2 * length ts)%nat /\
    targets (world st) !! dt = Some tint /\
    targets (world st) !! dft = Some tden /\
    dt <> dft /\
    tgt_name tint = name +:+ "DiffuseIBL" /\
    tgt_size tint = Some (32 * 6, 32) /\
    tgt_inputs tint !! "SourceCubemap" = Some (SI_texture sm) /\
    tgt_inputs tint !! "DestCubemap" = Some (SI_texture pf) /\
    tgt_inputs tint !! "cubeSize" = Some (SI_int 32) /\
    tgt_name tden = name +:+ "DiffPrefIBL" /\
    tgt_size tden = Some (10 * 6, 10) /\
    tgt_inputs tden !! "SourceCubemap" = Some (SI_texture pf) /\
    tgt_inputs tden !! "DestCubemap" = Some (SI_texture dm) /\
    tgt_inputs tden !! "cubeSize" = Some (SI_int 10).
Proof.
  set (n := length (textures w)).
  destruct (created_diffuse_lookup name size n (targets w)) as [Hi Hd].
  eexists _, _, _, _, _, _, _, _, _, _.
  split; [apply built_run|].
  cbn [self world targets created_filter filter_with _targets_spec
       _diffuse_target _diff_filter_target _specular_map _prefilter_map
       _diffuse_map].
  repeat split;
    [ rewrite spec_chain_length, every_other_length; reflexivity
    | exact Hi | exact Hd | lia ].
Qed.

(** C5: after [create], [set_shaders] returns, loads four shader programs
    and leaves a shader on every target [create] made: the integration
    target and the denoise target each have a program of their own, all
    downsample targets share the third one and all filter targets the
    fourth; the targets the host had before are as they were. *)
Theorem every_target_shaded (stage : nat) (name : string) (size : Z) (w : World) :
  exists st ts fs dt dft,
    session stage name size w = (Ok tt, st) /\
    _targets_spec (self st) = Some ts /\
    _targets_spec_filter (self st) = Some fs /\
    _diffuse_target (self st) = Some dt /\
    _diff_filter_target (self st) = Some dft /\
    shaders (world st) = shaders w ++ shader_paths /\
    shader_of (world st) dt = Some (length (shaders w)) /\
    shader_of (world st) dft = Some (length (shaders w) + 1)%nat /\
    (forall t, t ∈ ts -> shader_of (world st) t = Some (length (shaders w) + 2)%nat) /\
    (forall t, t ∈ fs -> shader_of (world st) t = Some (length (shaders w) + 3)%nat) /\
    (forall t, (t < length (targets w))%nat ->
       shader_of (world st) t = shader_of w t) /\
    (forall t, (length (targets w) <= t < length (targets (world st)))%nat ->
       (t = dt \/ t = dft \/ t ∈ ts \/ t ∈ fs) /\
       is_Some (shader_of (world st) t)).
Proof.
  set (n := length (textures w)).
  set (count := length (halvings size)).
  pose proof (shaded_layout (length (shaders w)) (length (targets w)) count
                (targets w ++ created_targets name size n)) as Hlay.
  cbv zeta in Hlay.
  destruct Hlay as (Hdt & Hdft & Hts & Hfs & Hold & Hall).
  { rewrite length_app, created_targets_length. fold count. lia. }
  eexists _, _, _, _, _.
  split; [apply session_run|].
  cbn [self world targets shaders created_filter filter_with _targets_spec
       _targets_spec_filter _diffuse_target _diff_filter_target].
  unfold shader_of. cbn [targets]. fold n count.
  do 5 (split; [reflexivity|]).
  split; [exact Hdt|]. split; [exact Hdft|].
  split; [exact Hts|]. split; [exact Hfs|].
  split.
  - intros t Hlt. rewrite Hold by exact Hlt.
    unfold shader_at. rewrite lookup_app_l by exact Hlt. reflexivity.
  - intros t [Hlo Hhi].
    rewrite shaded_length, length_app, created_targets_length in Hhi. fold count in Hhi.
    assert (t = (length (targets w) + 2 * count)%nat \/
            t = S (length (targets w) + 2 * count) \/
            t ∈ every_other (length (targets w)) count \/
            t ∈ every_other (S (length (targets w))) count) as Hcase
      by (apply Hall; lia).
    split; [exact Hcase|].
    destruct Hcase as [-> | [-> | [Hin | Hin]]].
    + rewrite Hdt. eexists; reflexivity.
    + rewrite Hdft. eexists; reflexivity.
    + rewrite (Hts t Hin). eexists; reflexivity.
    + rewrite (Hfs t Hin). eexists; reflexivity.
Qed.

(** C6: after the constructor the specular map and the specular prefilter
    map have the min-filter [FT_linear_mipmap_linear], the diffuse map has
    the min-filter and the mag-filter [FT_linear], and no later call of
    [create] or [set_shaders] touches a texture. *)
Theorem specular_mipmapped_diffuse_linear
    (stage : nat) (name : string) (size : Z) (w : World) :
  exists st sm pm dm tsm tpm tdm,
    construct stage name size w = (Ok tt, st) /\
    _specular_map (self st) = Some (mkImage sm) /\
    _spec_pref_map (self st) = Some (mkImage pm) /\
    _diffuse_map (self st) = Some (mkImage dm) /\
    textures (world st) !! sm = Some tsm /\
    textures (world st) !! pm = Some tpm /\
    textures (world st) !! dm = Some tdm /\
    tex_minfilter tsm = Some FT_linear_mipmap_linear /\
    tex_minfilter tpm = Some FT_linear_mipmap_linear /\
    tex_minfilter tdm = Some FT_linear /\
    tex_magfilter tdm = Some FT_linear /\
    forall ops, textures (world (run_ops ops st)) = textures (world st).
Proof.
  pose proof (construct_alive stage name size w) as Ha.
  rewrite construct_run in Ha. cbn [snd] in Ha.
  eexists _, _, _, _, _, _, _.
  split; [apply construct_run|].
  cbn [self world textures filter_with _diffuse_map _spec_pref_map _specular_map].
  do 3 (split; [reflexivity|]).
  split; [rewrite lookup_app_r by lia;
          replace (_ - _)%nat with 3%nat by lia; reflexivity|].
  split; [rewrite lookup_app_r by lia;
          replace (_ - _)%nat with 2%nat by lia; reflexivity|].
  split; [rewrite lookup_app_r by lia;
          replace (_ - _)%nat with 1%nat by lia; reflexivity|].
  do 4 (split; [reflexivity|]).
  intros ops.
  destruct (run_ops_alive stage name size w ops _ Ha) as [_ [_ Htx]].
  exact Htx.
Qed.

(** C7: a session (constructor, [create], [set_shaders]) returns, and the
    calls it makes on the host are a function of the stage, the name, the
    size and the handles the host gives out: two hosts that hold as many
    textures, targets and shaders see the same sequence of calls and leave
    the same filter, whatever else differs between them. *)
Theorem session_deterministic (stage : nat) (name : string) (size : Z)
    (w1 w2 : World) :
  length (textures w1) = length (textures w2) ->
  length (targets w1) = length (targets w2) ->
  length (shaders w1) = length (shaders w2) ->
  (session stage name size w1).1 = Ok tt /\
  (session stage name size w2).1 = Ok tt /\
  issued w1 (world (session stage name size w1).2)
    = session_calls stage name size (length (textures w1))
        (length (targets w1)) (length (shaders w1)) /\
  issued w1 (world (session stage name size w1).2)
    = issued w2 (world (session stage name size w2).2) /\
  self (session stage name size w1).2 = self (session stage name size w2).2.
Proof.
  intros Htx Htg Hsh. rewrite !session_run. cbn [fst snd self world].
  rewrite !issued_app, Htx, Htg, Hsh. repeat split.
Qed.

(** The witness of C7: size 4 on [host_a] and on [host_b]. *)
Lemma session_deterministic_witness :
  length (textures host_a) = length (textures host_b) /\
  length (targets host_a) = length (targets host_b) /\
  length (shaders host_a) = length (shaders host_b) /\
  host_a <> host_b /\
  issued host_a (world (session 0%nat "Cubemap" 4 host_a).2)
    = issued host_b (world (session 0%nat "Cubemap" 4 host_b).2).
Proof.
  split; [reflexivity|]. split; [reflexivity|]. split; [reflexivity|].
  split; [discriminate|].
  apply (session_deterministic 0%nat "Cubemap" 4 host_a host_b
           eq_refl eq_refl eq_refl).
Defined.

(** C8: [get_target_cubemap] and [get_specular_cubemap] return the same
    texture in every state, and after the constructor and any sequence of
    [create] and [set_shaders] calls both return the texture of the
    ["IBLSpec"] cube map the constructor made. *)
Theorem target_cubemap_is_specular_cubemap (stage : nat) (name : string)
    (size : Z) (w : World) (ops : list Op) :
  (forall st, get_target_cubemap st = get_specular_cubemap st) /\
  exists st0 x,
    construct stage name size w = (Ok tt, st0) /\
    get_specular_cubemap (run_ops ops st0)
      = (Ok (length (textures w) + 3)%nat, run_ops ops st0) /\
    get_target_cubemap (run_ops ops st0)
      = (Ok (length (textures w) + 3)%nat, run_ops ops st0) /\
    textures (world (run_ops ops st0)) !! (length (textures w) + 3)%nat = Some x /\
    tex_name x = name +:+ "IBLSpec".
Proof.
  split; [reflexivity|].
  pose proof (construct_alive stage name size w) as Ha.
  rewrite construct_run in Ha. cbn [snd] in Ha.
  eexists _, _. split; [apply construct_run|].
  destruct (run_ops_alive stage name size w ops _ Ha)
    as [[ts [fs [dt [dft Hself]]]] [_ Htx]].
  assert (forall g : M nat, g = get_specular_cubemap ->
            g (run_ops ops
                 (mkSt (filter_with stage name size (length (textures w))
                          None None None None)
                    (mkWorld (textures w ++ cube_maps name size) (targets w)
                       (shaders w)
                       (calls w ++ make_maps_calls name size (length (textures w))))))
            = (Ok (length (textures w) + 3)%nat,
               run_ops ops
                 (mkSt (filter_with stage name size (length (textures w))
                          None None None None)
                    (mkWorld (textures w ++ cube_maps name size) (targets w)
                       (shaders w)
                       (calls w ++ make_maps_calls name size (length (textures w)))))))
    as Hget.
  { intros g ->. unfold get_specular_cubemap, mbind, M_bind, getattr.
    rewrite Hself. reflexivity. }
  split; [apply Hget; reflexivity|]. split; [apply Hget; reflexivity|].
  rewrite Htx. split.
  - rewrite lookup_app_r by lia.
    replace (_ - _)%nat with 3%nat by lia. reflexivity.
  - reflexivity.
Qed.

(** C9: after the constructor and any sequence of [create] and
    [set_shaders] calls, the stage, the name, the size and the four cube
    maps of the filter are those the constructor assigned, and [get_size]
    returns the size passed to the constructor. *)
Theorem identity_state_preserved (stage : nat) (name : string) (size : Z)
    (w : World) (ops : list Op) :
  exists st0,
    construct stage name size w = (Ok tt, st0) /\
    _stage (self (run_ops ops st0)) = Some stage /\
    _name (self (run_ops ops st0)) = Some name /\
    _size (self (run_ops ops st0)) = Some size /\
    is_Some (_prefilter_map (self st0)) /\
    is_Some (_diffuse_map (self st0)) /\
    is_Some (_spec_pref_map (self st0)) /\
    is_Some (_specular_map (self st0)) /\
    _prefilter_map (self (run_ops ops st0)) = _prefilter_map (self st0) /\
    _diffuse_map (self (run_ops ops st0)) = _diffuse_map (self st0) /\
    _spec_pref_map (self (run_ops ops st0)) = _spec_pref_map (self st0) /\
    _specular_map (self (run_ops ops st0)) = _specular_map (self st0) /\
    get_size (run_ops ops st0) = (Ok size, run_ops ops st0).
Proof.
  pose proof (construct_alive stage name size w) as Ha.
  rewrite construct_run in Ha. cbn [snd] in Ha.
  eexists. split; [apply construct_run|].
  destruct (run_ops_alive stage name size w ops _ Ha)
    as [[ts [fs [dt [dft Hself]]]] _].
  unfold get_size, getattr. rewrite Hself.
  cbn [self filter_with _stage _name _size _prefilter_map _diffuse_map
       _spec_pref_map _specular_map].
  repeat split; eexists; reflexivity.
Qed.

(** C10: the loop of [_make_specular_targets] returns for every integer
    size.  Floor halving strictly decreases any [mipsize >= 2]; every
    iteration appends one target to each list, the [i]-th one for the size
    halved [i + 1] times; and the loop makes [floor (log2 size)] iterations
    when [size >= 2] and none when [size < 2]. *)
Theorem specular_loop_terminates (stage : nat) (name : string) (size : Z) (w : World) :
  exists st0 st ts fs,
    construct stage name size w = (Ok tt, st0) /\
    _make_specular_targets st0 = (Ok tt, st) /\
    _targets_spec (self st) = Some ts /\
    _targets_spec_filter (self st) = Some fs /\
    length fs = length ts /\
    length (targets (world st)) = (length (targets (world st0)) + 2 * length ts)%nat /\
    (forall i : nat, (i < length ts)%nat ->
       exists d td,
         ts !! i = Some d /\ targets (world st) !! d = Some td /\
         tgt_size td = Some (size / 2 ^ (Z.of_nat i + 1) * 6,
                             size / 2 ^ (Z.of_nat i + 1)) /\
         size / 2 ^ (Z.of_nat i + 1) >= 1) /\
    (forall mipsize, mipsize >= 2 -> 1 <= mipsize / 2 < mipsize) /\
    (2 <= size ->
       Z.of_nat (length ts) = Z.log2 size /\
       2 ^ Z.of_nat (length ts) <= size < 2 ^ (Z.of_nat (length ts) + 1)) /\
    (size < 2 -> length ts = 0%nat).
Proof.
  eexists _, _, _, _.
  split; [apply construct_run|].
  split; [apply make_specular_targets_run|].
  cbn [self world targets filter_with _targets_spec _targets_spec_filter].
  rewrite !every_other_length, length_app, spec_chain_length.
  do 4 (split; [reflexivity|]).
  split; [|split; [exact halve_decreases|split]].
  - intros i Hi.
    pose proof (halvings_lookup i size Hi) as Hs.
    destruct (spec_chain_lookup name (length (textures w) + 3)
                (length (textures w) + 2) _ 0 i _ Hs) as [Hd _].
    eexists _, _.
    split; [apply every_other_lookup, Hi|].
    split; [rewrite lookup_app_r by lia;
            replace (_ - _)%nat with (2 * i)%nat by lia; exact Hd|].
    split; [reflexivity|].
    apply list_elem_of_lookup_2, halvings_ge_1 in Hs. lia.
  - intros Hsize. rewrite halvings_length. split; [reflexivity|].
    rewrite Z.add_1_r. apply Z.log2_spec. lia.
  - intros Hsize. rewrite halvings_stop by exact Hsize. reflexivity.
Qed.

(** * Further properties *)

(** ** The order of the calls *)

Lemma alive_create stage name size w st :
  alive stage name size w st ->
  (create st).1 = Ok tt /\ is_Some (_diffuse_target (self (create st).2)).
Proof.
  intros [[ts [fs [dt [dft Hself]]]] _].
  destruct st as [me [tx tg sh cl]]. cbn [self] in Hself. subst me.
  rewrite create_run. split; [reflexivity|]. eexists. reflexivity.
Qed.

Lemma alive_set_shaders stage name size w st :
  alive stage name size w st ->
  is_Some (_diffuse_target (self st)) ->
  (set_shaders st).1 = Ok tt /\ self (set_shaders st).2 = self st.
Proof.
  intros [[ts [fs [dt [dft Hself]]]] [Hc _]] [d Hd].
  destruct st as [me [tx tg sh cl]]. cbn [self] in *. subst me.
  destruct Hc as [[_ [_ [Hn _]]] | [[ts' Hts] [[fs' Hfs] [[dt' Hdt] [dft' Hdft]]]]].
  - cbn in Hn, Hd. congruence.
  - cbn in Hts, Hfs, Hdt, Hdft. subst ts fs dt dft.
    unfold filter_with. rewrite set_shaders_run. split; reflexivity.
Qed.

Lemma run_ops_created stage name size w ops :
  forall st, alive stage name size w st ->
  is_Some (_diffuse_target (self st)) \/ OpCreate ∈ ops ->
  is_Some (_diffuse_target (self (run_ops ops st))).
Proof.
  induction ops as [|o ops IH]; intros st Ha [Hs|Hin].
  - exact Hs.
  - inversion Hin.
  - cbn [run_ops]. apply IH; [apply run_op_alive, Ha|]. left.
    destruct o; cbn [run_op].
    + apply (alive_create _ _ _ _ _ Ha).
    + destruct (alive_set_shaders _ _ _ _ _ Ha Hs) as [_ ->]. exact Hs.
  - cbn [run_ops]. apply IH; [apply run_op_alive, Ha|].
    apply elem_of_cons in Hin as [<-|Hin]; [left|right; exact Hin].
    apply (alive_create _ _ _ _ _ Ha).
Qed.

Lemma run_ops_not_created ops :
  forall st, _diffuse_target (self st) = None -> OpCreate ∉ ops ->
  run_ops ops st = st.
Proof.
  induction ops as [|o ops IH]; intros st Hn Hops; [reflexivity|].
  apply not_elem_of_cons in Hops as [Ho Hops].
  destruct o; [congruence|].
  cbn [run_ops run_op]. rewrite set_shaders_raise by exact Hn.
  apply IH; assumption.
Qed.

(** X1: on a constructed filter, after any sequence of [create] and
    [set_shaders] calls, [create] returns; [set_shaders] returns when
    [create] was called before, and otherwise it raises the attribute error
    of [_diffuse_target] and nothing has changed since the constructor: no
    shader was loaded. *)
Theorem set_shaders_needs_create (stage : nat) (name : string) (size : Z)
    (w : World) (ops : list Op) :
  exists st0,
    construct stage name size w = (Ok tt, st0) /\
    (create (run_ops ops st0)).1 = Ok tt /\
    (OpCreate ∈ ops -> (set_shaders (run_ops ops st0)).1 = Ok tt) /\
    (OpCreate ∉ ops ->
       run_ops ops st0 = st0 /\
       shaders (world st0) = shaders w /\
       set_shaders (run_ops ops st0)
         = (Raise (AttributeError "_diffuse_target"), st0)).
Proof.
  pose proof (construct_alive stage name size w) as Ha.
  rewrite construct_run in Ha. cbn [snd] in Ha.
  eexists. split; [apply construct_run|].
  pose proof (run_ops_alive stage name size w ops _ Ha) as Hb.
  split; [apply (alive_create _ _ _ _ _ Hb)|]. split.
  - intros Hin. apply (alive_set_shaders _ _ _ _ _ Hb).
    apply (run_ops_created _ _ _ _ _ _ Ha). right. exact Hin.
  - intros Hn. rewrite run_ops_not_created by (reflexivity || exact Hn).
    split; [reflexivity|]. split; [reflexivity|].
    apply set_shaders_raise. reflexivity.
Qed.

(** ** The diffuse cube map *)

(** X2: after the constructor and any sequence of [create] and
    [set_shaders] calls, [get_diffuse_cubemap] returns, without changing
    anything, the texture of the ["IBLDiff"] cube map: a float cube map of
    size 10 whatever the size of the filter, with plain linear filtering,
    and another texture than the one [get_specular_cubemap] returns. *)
Theorem diffuse_cubemap_is_small_linear (stage : nat) (name : string)
    (size : Z) (w : World) (ops : list Op) :
  exists st0 x,
    construct stage name size w = (Ok tt, st0) /\
    get_diffuse_cubemap (run_ops ops st0)
      = (Ok (length (textures w) + 1)%nat, run_ops ops st0) /\
    textures (world (run_ops ops st0)) !! (length (textures w) + 1)%nat = Some x /\
    tex_name x = name +:+ "IBLDiff" /\
    float_cube_map 10 x /\
    tex_minfilter x = Some FT_linear /\
    tex_magfilter x = Some FT_linear /\
    (get_diffuse_cubemap (run_ops ops st0)).1
      <> (get_specular_cubemap (run_ops ops st0)).1.
Proof.
  pose proof (construct_alive stage name size w) as Ha.
  rewrite construct_run in Ha. cbn [snd] in Ha.
  eexists _, _. split; [apply construct_run|].
  destruct (run_ops_alive stage name size w ops _ Ha)
    as [[ts [fs [dt [dft Hself]]]] [_ Htx]].
  unfold get_diffuse_cubemap, get_specular_cubemap, mbind, M_bind, getattr.
  rewrite Hself, Htx.
  cbn [filter_with _diffuse_map _specular_map texture mret M_ret fst].
  split; [reflexivity|].
  split; [rewrite lookup_app_r by lia;
          replace (_ - _)%nat with 1%nat by lia; reflexivity|].
  split; [reflexivity|]. split; [repeat split|].
  split; [reflexivity|]. split; [reflexivity|].
  intros E. injection E. lia.
Qed.

(** ** What [set_shaders] leaves alone *)

Lemma same_but_shader_refl x : same_but_shader x x.
Proof. repeat split. Qed.

Lemma same_but_shader_trans x y z :
  same_but_shader x y -> same_but_shader y z -> same_but_shader x z.
Proof.
  intros (A1 & A2 & A3 & A4 & A5) (B1 & B2 & B3 & B4 & B5).
  repeat split; congruence.
Qed.

Lemma alter_with_shader_same s (i t : nat) (tg : list RenderTarget) x :
  tg !! t = Some x ->
  exists y, alter (with_shader s) i tg !! t = Some y /\ same_but_shader x y.
Proof.
  intros Hx. destruct (decide (i = t)) as [->|Hne].
  - rewrite list_lookup_alter_eq, Hx. eexists. split; [reflexivity|]. repeat split.
  - rewrite list_lookup_alter_ne by exact Hne.
    exists x. split; [exact Hx | apply same_but_shader_refl].
Qed.

Lemma shade_same s ts :
  forall tg (t : nat) x, tg !! t = Some x ->
  exists y, shade s ts tg !! t = Some y /\ same_but_shader x y.
Proof.
  induction ts as [|a ts IH]; intros tg t x Hx.
  - exists x. split; [exact Hx | apply same_but_shader_refl].
  - destruct (alter_with_shader_same s a t tg x Hx) as [y [Hy Hxy]].
    destruct (IH _ _ _ Hy) as [z [Hz Hyz]].
    exists z. split; [exact Hz | exact (same_but_shader_trans _ _ _ Hxy Hyz)].
Qed.

Lemma shaded_same s dt dft ts fs tg (t : nat) x :
  tg !! t = Some x ->
  exists y, shaded s dt dft ts fs tg !! t = Some y /\ same_but_shader x y.
Proof.
  intros Hx. unfold shaded.
  destruct (alter_with_shader_same s dt t _ _ Hx) as [y1 [H1 S1]].
  destruct (alter_with_shader_same (s + 1) dft t _ _ H1) as [y2 [H2 S2]].
  destruct (shade_same (s + 2) ts _ _ _ H2) as [y3 [H3 S3]].
  destruct (shade_same (s + 3) fs _ _ _ H3) as [y4 [H4 S4]].
  exists y4. split; [exact H4|].
  eauto using same_but_shader_trans.
Qed.

(** X3: at any point of the life of a filter, a call of [set_shaders],
    whether it returns or raises, leaves the attributes of the filter and
    all textures as they are, makes no target, and changes nothing of any
    target but its shader: names, sizes, buffers and shader inputs stay. *)
Theorem set_shaders_only_sets_shaders (stage : nat) (name : string) (size : Z)
    (w : World) (ops : list Op) :
  exists st0,
    construct stage name size w = (Ok tt, st0) /\
    self (set_shaders (run_ops ops st0)).2 = self (run_ops ops st0) /\
    textures (world (set_shaders (run_ops ops st0)).2)
      = textures (world (run_ops ops st0)) /\
    length (targets (world (set_shaders (run_ops ops st0)).2))
      = length (targets (world (run_ops ops st0))) /\
    forall (t : nat) x,
      targets (world (run_ops ops st0)) !! t = Some x ->
      exists y,
        targets (world (set_shaders (run_ops ops st0)).2) !! t = Some y /\
        same_but_shader x y.
Proof.
  pose proof (construct_alive stage name size w) as Ha.
  rewrite construct_run in Ha. cbn [snd] in Ha.
  eexists. split; [apply construct_run|].
  pose proof (run_ops_alive stage name size w ops _ Ha) as Hb.
  destruct Hb as [[ts [fs [dt [dft Hself]]]] [Hc _]].
  destruct (run_ops ops _) as [me [tx tg sh cl]].
  cbn [self] in Hself, Hc. subst me.
  destruct Hc as [[_ [_ [Hn _]]] | [[ts' Hts] [[fs' Hfs] [[dt' Hdt] [dft' Hdft]]]]].
  - rewrite set_shaders_raise by exact Hn. cbn [snd].
    repeat split. intros t x Hx. exists x.
    split; [exact Hx | apply same_but_shader_refl].
  - cbn in Hts, Hfs, Hdt, Hdft. subst ts fs dt dft.
    unfold filter_with. rewrite set_shaders_run.
    cbn [snd self world textures targets].
    split; [reflexivity|]. split; [reflexivity|].
    split; [apply shaded_length|].
    intros t x Hx. apply shaded_same, Hx.
Qed.

(** ** The host keeps what it had *)

Lemma alter_keeps_prefix {A} (f : A -> A) (i : nat) (l0 tg : list A) :
  (length l0 <= i)%nat -> l0 `prefix_of` tg -> l0 `prefix_of` alter f i tg.
Proof.
  intros Hi [k ->]. rewrite alter_app_r_alt by exact Hi. eexists. reflexivity.
Qed.

Lemma shade_keeps_prefix s ts (l0 : list RenderTarget) :
  forall tg, Forall (fun t => length l0 <= t)%nat ts ->
  l0 `prefix_of` tg -> l0 `prefix_of` shade s ts tg.
Proof.
  induction ts as [|a ts IH]; intros tg Hts Hp; [exact Hp|].
  apply Forall_cons in Hts as [Ha Hts]. cbn [shade foldl].
  apply IH; [exact Hts|]. apply alter_keeps_prefix; assumption.
Qed.

Lemma every_other_ge (k : nat) count :
  forall n, (k <= n)%nat -> Forall (fun t => k <= t)%nat (every_other n count).
Proof.
  induction count as [|c IH]; intros n Hn; cbn [every_other]; constructor.
  - exact Hn.
  - apply IH. lia.
Qed.

Lemma construct_laid_out stage name size w :
  laid_out stage name size w (construct stage name size w).2.
Proof.
  rewrite construct_run. cbn [snd]. unfold laid_out. cbn [self world textures targets shaders calls].
  split; [reflexivity|]. split; [reflexivity|]. split; [reflexivity|].
  split; [apply prefix_app_r; reflexivity|]. left. reflexivity.
Qed.

Lemma run_op_laid_out stage name size w o st :
  laid_out stage name size w st -> laid_out stage name size w (run_op o st).2.
Proof.
  intros (Htx & Htg & Hsh & Hcl & Hself).
  destruct st as [me [tx tg sh cl]].
  cbn [self world textures targets shaders calls] in *.
  pose proof (prefix_length _ _ Htg) as Hlen.
  destruct o; cbn [run_op].
  - assert (exists ts fs dt dft,
              me = filter_with stage name size (length (textures w)) ts fs dt dft)
      as (ts & fs & dt & dft & ->).
    { destruct Hself as [->|(t1 & _ & _ & ->)]; eexists _, _, _, _; reflexivity. }
    rewrite create_run. cbn [snd]. unfold laid_out.
    cbn [self world textures targets shaders calls].
    split; [exact Htx|]. split; [apply prefix_app_r, Htg|].
    split; [exact Hsh|]. split; [apply prefix_app_r, Hcl|].
    right. exists (length tg). split; [exact Hlen|]. split; [|reflexivity].
    rewrite length_app, created_targets_length. lia.
  - destruct Hself as [->|(t1 & Ht1 & Hfit & ->)].
    + rewrite set_shaders_raise by reflexivity. cbn [snd]. unfold laid_out.
      cbn [self world textures targets shaders calls].
      repeat split; try assumption. left. reflexivity.
    + unfold created_filter, filter_with. rewrite set_shaders_run.
      cbn [snd]. unfold laid_out.
      cbn [self world textures targets shaders calls].
      split; [exact Htx|]. split.
      { unfold shaded.
        apply shade_keeps_prefix; [apply every_other_ge; lia|].
        apply shade_keeps_prefix; [apply every_other_ge; lia|].
        apply alter_keeps_prefix; [lia|].
        apply alter_keeps_prefix; [lia|]. exact Htg. }
      split; [apply prefix_app_r, Hsh|]. split; [apply prefix_app_r, Hcl|].
      right. exists t1. split; [exact Ht1|]. split; [|reflexivity].
      rewrite shaded_length. exact Hfit.
Qed.

Lemma run_ops_laid_out stage name size w ops :
  forall st, laid_out stage name size w st ->
  laid_out stage name size w (run_ops ops st).
Proof.
  induction ops as [|o ops IH]; intros st H; [exact H|].
  cbn [run_ops]. apply IH, run_op_laid_out, H.
Qed.

Lemma laid_out_tidy stage name size w st :
  laid_out stage name size w st -> tidy w st.
Proof.
  intros (_ & Htg & Hsh & Hcl & Hself). unfold tidy, own_handle.
  split; [exact Htg|]. split; [exact Hsh|]. split; [exact Hcl|].
  destruct Hself as [->|(t1 & Ht1 & Hfit & ->)].
  - repeat split; discriminate.
  - cbn [created_filter filter_with _targets_spec _targets_spec_filter
         _diffuse_target _diff_filter_target].
    split; [|split; [|split]].
    + intros ts [= <-]. apply Forall_forall. intros t Ht.
      apply elem_of_every_other in Ht as (i & Hi & ->). lia.
    + intros fs [= <-]. apply Forall_forall. intros t Ht.
      apply elem_of_every_other in Ht as (i & Hi & ->). lia.
    + intros t [= <-]. lia.
    + intros t [= <-]. lia.
Qed.

(** X4: after the constructor and any sequence of [create] and
    [set_shaders] calls, the targets, shaders and calls the host had before
    the constructor are still there, unchanged and in front of what came
    since, and every target handle the filter holds names a target made
    since: the filter never touches a target that is not its own. *)
Theorem filter_keeps_to_its_own (stage : nat) (name : string) (size : Z)
    (w : World) (ops : list Op) :
  exists st0,
    construct stage name size w = (Ok tt, st0) /\
    tidy w (run_ops ops st0) /\
    take (length (textures w)) (textures (world (run_ops ops st0))) = textures w /\
    forall (t : nat), (t < length (targets w))%nat ->
      targets (world (run_ops ops st0)) !! t = targets w !! t.
Proof.
  pose proof (construct_laid_out stage name size w) as Ha.
  rewrite construct_run in Ha. cbn [snd] in Ha.
  eexists. split; [apply construct_run|].
  pose proof (run_ops_laid_out stage name size w ops _ Ha) as Hb.
  split; [exact (laid_out_tidy _ _ _ _ _ Hb)|].
  destruct Hb as (Htx & [more Htg] & _).
  split.
  - rewrite Htx. apply take_app_length.
  - intros t Ht. rewrite Htg. apply lookup_app_l, Ht.
Qed.

(** ** Calling [set_shaders] and [create] again *)

Lemma laid_out_created stage name size w ops st0 :
  alive stage name size w st0 -> laid_out stage name size w st0 ->
  OpCreate ∈ ops ->
  exists t1 : nat,
    (length (targets w) <= t1)%nat /\
    (t1 + 2 * length (halvings size) + 2
       <= length (targets (world (run_ops ops st0))))%nat /\
    self (run_ops ops st0)
      = created_filter stage name size (length (textures w)) t1.
Proof.
  intros Ha Hl Hin.
  pose proof (run_ops_created _ _ _ _ ops _ Ha (or_intror Hin)) as [d Hd].
  destruct (run_ops_laid_out _ _ _ _ ops _ Hl) as (_ & _ & _ & _ & [E|H]).
  - rewrite E in Hd. discriminate.
  - exact H.
Qed.

(** X5: once [create] has been called, every call of [set_shaders], after
    whatever other calls, returns, loads four more shader programs and
    puts them on the targets the filter holds: the first on the
    integration target, the second on the denoise target, the third on
    every downsample target and the fourth on every filter target.  A
    later call thus replaces the shaders of an earlier one. *)
Theorem set_shaders_reshades (stage : nat) (name : string) (size : Z)
    (w : World) (ops : list Op) :
  OpCreate ∈ ops ->
  exists st0 ts fs dt dft,
    construct stage name size w = (Ok tt, st0) /\
    (set_shaders (run_ops ops st0)).1 = Ok tt /\
    _targets_spec (self (run_ops ops st0)) = Some ts /\
    _targets_spec_filter (self (run_ops ops st0)) = Some fs /\
    _diffuse_target (self (run_ops ops st0)) = Some dt /\
    _diff_filter_target (self (run_ops ops st0)) = Some dft /\
    shaders (world (after set_shaders (run_ops ops st0)))
      = shaders (world (run_ops ops st0)) ++ shader_paths /\
    shader_of (world (after set_shaders (run_ops ops st0))) dt
      = Some (length (shaders (world (run_ops ops st0)))) /\
    shader_of (world (after set_shaders (run_ops ops st0))) dft
      = Some (length (shaders (world (run_ops ops st0))) + 1)%nat /\
    (forall t, t ∈ ts ->
       shader_of (world (after set_shaders (run_ops ops st0))) t
         = Some (length (shaders (world (run_ops ops st0))) + 2)%nat) /\
    (forall t, t ∈ fs ->
       shader_of (world (after set_shaders (run_ops ops st0))) t
         = Some (length (shaders (world (run_ops ops st0))) + 3)%nat).
Proof.
  intros Hin.
  pose proof (construct_alive stage name size w) as Ha.
  pose proof (construct_laid_out stage name size w) as Hl.
  rewrite construct_run in Ha, Hl. cbn [snd] in Ha, Hl.
  destruct (laid_out_created _ _ _ _ ops _ Ha Hl Hin) as (t1 & Ht1 & Hfit & Hself).
  eexists _, _, _, _, _. split; [apply construct_run|].
  unfold after.
  destruct (run_ops ops _) as [me [tx tg sh cl]].
  cbn [self world targets] in Hself, Hfit. subst me.
  unfold created_filter, filter_with. rewrite set_shaders_run.
  cbn [fst snd self world shaders targets _targets_spec _targets_spec_filter
       _diffuse_target _diff_filter_target].
  do 6 (split; [reflexivity|]).
  pose proof (shaded_layout (length sh) t1 (length (halvings size)) tg) as Hlay.
  cbv zeta in Hlay.
  destruct Hlay as (Hdt & Hdft & Hts & Hfs & _); [lia|].
  unfold shader_of. cbn [targets].
  split; [exact Hdt|]. split; [exact Hdft|]. split; [exact Hts | exact Hfs].
Qed.

(** The witness of X5: [create] then [set_shaders] twice, size 4. *)
Lemma set_shaders_reshades_witness :
  OpCreate ∈ [OpCreate; OpSetShaders] /\
  (set_shaders (run_ops [OpCreate; OpSetShaders]
                  (construct 0%nat "Cubemap" 4 empty_world).2)).1 = Ok tt.
Proof.
  assert (OpCreate ∈ [OpCreate; OpSetShaders]) as Hin by (apply elem_of_cons; left; reflexivity).
  split; [exact Hin|].
  destruct (set_shaders_reshades 0%nat "Cubemap" 4 empty_world _ Hin)
    as (st0 & ts & fs & dt & dft & Hc & Hok & _).
  rewrite Hc. exact Hok.
Defined.

Lemma spec_chain_no_shader name sm pm sizes :
  forall mip, Forall (fun x => tgt_shader x = None) (spec_chain name sm pm mip sizes).
Proof.
  induction sizes as [|s sizes IH]; intros mip; cbn [spec_chain].
  - constructor.
  - constructor; [reflexivity|]. constructor; [reflexivity|]. apply IH.
Qed.

Lemma created_no_shader name size n :
  Forall (fun x => tgt_shader x = None) (created_targets name size n).
Proof.
  unfold created_targets. apply Forall_app. split.
  - apply spec_chain_no_shader.
  - repeat constructor.
Qed.

(** X6: [create] starts over.  When it is called twice in a row, at any
    point of the life of a filter, each call returns and makes the same
    number of targets, but the filter holds only those of the second call:
    a target of the first call is named by no attribute of the filter, has
    the same name as a target of the second call, and is left without a
    shader by a following [set_shaders]. *)
Theorem recreate_orphans_targets (stage : nat) (name : string) (size : Z)
    (w : World) (ops : list Op) :
  exists st0 st1 st2 st3 ts fs dt dft,
    construct stage name size w = (Ok tt, st0) /\
    create (run_ops ops st0) = (Ok tt, st1) /\
    create st1 = (Ok tt, st2) /\
    set_shaders st2 = (Ok tt, st3) /\
    _targets_spec (self st2) = Some ts /\
    _targets_spec_filter (self st2) = Some fs /\
    _diffuse_target (self st2) = Some dt /\
    _diff_filter_target (self st2) = Some dft /\
    length (targets (world st1))
      = (length (targets (world (run_ops ops st0))) + (2 * length ts + 2))%nat /\
    length (targets (world st3))
      = (length (targets (world st1)) + (2 * length ts + 2))%nat /\
    forall t : nat,
      (length (targets (world (run_ops ops st0))) <= t
         < length (targets (world st1)))%nat ->
      (t ∉ ts) /\ (t ∉ fs) /\ t <> dt /\ t <> dft /\
      shader_of (world st3) t = None /\
      exists x y,
        targets (world st3) !! t = Some x /\
        targets (world st3) !! (t + (2 * length ts + 2))%nat = Some y /\
        tgt_name x = tgt_name y.
Proof.
  pose proof (construct_alive stage name size w) as Ha.
  rewrite construct_run in Ha. cbn [snd] in Ha.
  destruct (run_ops_alive stage name size w ops _ Ha)
    as [[ts0 [fs0 [dt0 [dft0 Hself]]]] _].
  destruct (run_ops ops _) as [me [tx tg sh cl]] eqn:Hrun.
  cbn [self] in Hself. subst me.
  set (n := length (textures w)) in *.
  set (count := length (halvings size)).
  set (made := created_targets name size n).
  assert (length made = (2 * count + 2)%nat) as Hmade
    by apply created_targets_length.
  eexists _, _, _, _, _, _, _, _.
  split; [apply construct_run|]. fold n. rewrite Hrun.
  split; [apply create_run|].
  split; [unfold created_filter; apply create_run|].
  split; [unfold created_filter, filter_with; apply set_shaders_run|].
  cbn [self world targets filter_with _targets_spec _targets_spec_filter
       _diffuse_target _diff_filter_target].
  do 4 (split; [reflexivity|]).
  fold n made count.
  rewrite every_other_length, shaded_length, !length_app, Hmade.
  split; [reflexivity|]. split; [reflexivity|].
  intros t [Hlo Hhi].
  pose proof (shaded_layout (length sh) (length tg + (2 * count + 2)) count
                ((tg ++ made) ++ made)) as Hlay.
  cbv zeta in Hlay.
  destruct Hlay as (_ & _ & _ & _ & Hold & _).
  { rewrite !length_app, Hmade. lia. }
  destruct (lookup_lt_is_Some_2 made (t - length tg)) as [x Hx]; [lia|].
  assert (((tg ++ made) ++ made) !! t = Some x) as Hfirst.
  { rewrite <- app_assoc, lookup_app_r by lia. apply lookup_app_l_Some, Hx. }
  assert (((tg ++ made) ++ made) !! (t + (2 * count + 2))%nat = Some x) as Hsecond.
  { rewrite lookup_app_r by (rewrite length_app; lia).
    rewrite length_app, Hmade.
    replace (_ - _)%nat with (t - length tg)%nat by lia. exact Hx. }
  split; [intros Hin; apply elem_of_every_other in Hin as (i & _ & Hi); lia|].
  split; [intros Hin; apply elem_of_every_other in Hin as (i & _ & Hi); lia|].
  split; [lia|]. split; [lia|]. split.
  - unfold shader_of. cbn [targets]. rewrite Hold by lia.
    unfold shader_at. rewrite Hfirst.
    pose proof (created_no_shader name size n) as Hno.
    rewrite Forall_lookup in Hno. exact (Hno _ _ Hx).
  - match goal with |- context [shaded ?s ?a ?b ?c ?d _] =>
      destruct (shaded_same s a b c d _ _ _ Hfirst) as (y1 & Hy1 & S1);
      destruct (shaded_same s a b c d _ _ _ Hsecond) as (y2 & Hy2 & S2)
    end.
    exists y1, y2. split; [exact Hy1|]. split; [exact Hy2|].
    destruct S1 as [N1 _], S2 as [N2 _]. congruence.
Qed.

(** ** Sizes that are no powers of two *)

Lemma div_pow2_log2 size : 2 <= size -> size / 2 ^ Z.log2 size = 1.
Proof.
  intros H. destruct (Z.log2_spec size) as [Hlo Hhi]; [lia|].
  rewrite Z.pow_succ_r in Hhi by apply Z.log2_nonneg.
  symmetry. apply (Z.div_unique size (2 ^ Z.log2 size) 1 (size - 2 ^ Z.log2 size)).
  - left. lia.
  - lia.
Qed.

(** X7: for every integer size, the [m]-th pair of the chain
    ([m = 0, 1, ...]) writes mip level [m + 1], reads from the specular
    map when [m = 0] and from the specular prefilter map otherwise, and
    renders at [s * 6 x s] for [s] the floor of [size / 2 ^ (m + 1)];
    there are [Z.log2 size] pairs, and from size 2 on the last one renders
    at [6 x 1], also when the size is no power of two. *)
Theorem chain_follows_mip_levels (stage : nat) (name : string) (size : Z)
    (w : World) :
  exists st ts fs sm pm,
    and_then (construct stage name size w) create = (Ok tt, st) /\
    _targets_spec (self st) = Some ts /\
    _targets_spec_filter (self st) = Some fs /\
    _specular_map (self st) = Some (mkImage sm) /\
    _spec_pref_map (self st) = Some (mkImage pm) /\
    Z.of_nat (length ts) = Z.log2 size /\
    length fs = length ts /\
    (forall m : nat, (m < length ts)%nat ->
       exists d f td tf,
         ts !! m = Some d /\ fs !! m = Some f /\
         targets (world st) !! d = Some td /\
         targets (world st) !! f = Some tf /\
         tgt_inputs td !! "SourceTex"
           = Some (SI_texture (if decide (m = 0%nat) then sm else pm)) /\
         tgt_inputs td !! "DestMipmap"
           = Some (SI_image pm false true (-1) (Z.of_nat m + 1) 0) /\
         tgt_inputs tf !! "SourceTex" = Some (SI_texture pm) /\
         tgt_inputs tf !! "DestMipmap"
           = Some (SI_image sm false true (-1) (Z.of_nat m + 1) 0) /\
         1 <= size / 2 ^ (Z.of_nat m + 1) /\
         tgt_size td = Some (size / 2 ^ (Z.of_nat m + 1) * 6,
                             size / 2 ^ (Z.of_nat m + 1)) /\
         tgt_size tf = Some (size / 2 ^ (Z.of_nat m + 1) * 6,
                             size / 2 ^ (Z.of_nat m + 1))) /\
    (2 <= size ->
       exists d f td tf,
         ts !! (length ts - 1)%nat = Some d /\
         fs !! (length ts - 1)%nat = Some f /\
         targets (world st) !! d = Some td /\
         targets (world st) !! f = Some tf /\
         tgt_size td = Some (6, 1) /\ tgt_size tf = Some (6, 1)).
Proof.
  set (n := length (textures w)).
  set (count := length (halvings size)).
  assert (forall m : nat, (m < count)%nat ->
    exists td tf,
      (targets w ++ created_targets name size n) !! (length (targets w) + 2 * m)%nat
        = Some td /\
      (targets w ++ created_targets name size n) !! S (length (targets w) + 2 * m)
        = Some tf /\
      tgt_inputs td !! "SourceTex"
        = Some (SI_texture (if decide (m = 0%nat) then (n + 3)%nat else (n + 2)%nat)) /\
      tgt_inputs td !! "DestMipmap"
        = Some (SI_image (n + 2) false true (-1) (Z.of_nat m + 1) 0) /\
      tgt_inputs tf !! "SourceTex" = Some (SI_texture (n + 2)) /\
      tgt_inputs tf !! "DestMipmap"
        = Some (SI_image (n + 3) false true (-1) (Z.of_nat m + 1) 0) /\
      1 <= size / 2 ^ (Z.of_nat m + 1) /\
      tgt_size td = Some (size / 2 ^ (Z.of_nat m + 1) * 6,
                          size / 2 ^ (Z.of_nat m + 1)) /\
      tgt_size tf = Some (size / 2 ^ (Z.of_nat m + 1) * 6,
                          size / 2 ^ (Z.of_nat m + 1))) as Hpair.
  { intros m Hm.
    pose proof (halvings_lookup m size Hm) as Hs.
    destruct (created_pair_lookup name _ n (targets w) [] m _ Hs) as [Hd Hf].
    rewrite app_nil_r in Hd, Hf.
    eexists _, _. split; [exact Hd|]. split; [exact Hf|].
    cbn [tgt_inputs tgt_size downsample_target filter_target].
    split.
    { rewrite input_lookup_1 by discriminate.
      destruct (decide (m = 0%nat)) as [->|Hne]; [reflexivity|].
      rewrite decide_False by lia. reflexivity. }
    split; [apply input_lookup_2; discriminate|].
    split; [apply input_lookup_2; discriminate|].
    split; [apply input_lookup_3|].
    split; [apply list_elem_of_lookup_2, halvings_ge_1 in Hs; exact Hs|].
    split; reflexivity. }
  eexists _, _, _, (n + 3)%nat, (n + 2)%nat.
  split; [apply built_run|].
  cbn [self world targets created_filter filter_with
       _targets_spec _targets_spec_filter _specular_map _spec_pref_map].
  fold n count. rewrite !every_other_length.
  do 4 (split; [reflexivity|]).
  split; [apply halvings_length|]. split; [reflexivity|]. split.
  - intros m Hm.
    destruct (Hpair m Hm) as (td & tf & Hd & Hf & H1 & H2 & H3 & H4 & H5 & H6 & H7).
    exists (length (targets w) + 2 * m)%nat, (S (length (targets w) + 2 * m)), td, tf.
    split; [apply every_other_lookup, Hm|].
    split; [apply every_other_lookup, Hm|].
    repeat (split; [assumption|]). assumption.
  - intros Hsize.
    assert (Z.of_nat count = Z.log2 size) as Hc by apply halvings_length.
    assert (0 < Z.log2 size) as Hpos by (apply Z.log2_pos; lia).
    destruct (Hpair (count - 1)%nat ltac:(lia))
      as (td & tf & Hd & Hf & _ & _ & _ & _ & _ & H6 & H7).
    replace (Z.of_nat (count - 1) + 1) with (Z.log2 size) in H6, H7 by lia.
    rewrite div_pow2_log2 in H6, H7 by exact Hsize.
    exists (length (targets w) + 2 * (count - 1))%nat,
      (S (length (targets w) + 2 * (count - 1))), td, tf.
    split; [apply every_other_lookup; lia|].
    split; [apply every_other_lookup; lia|].
    repeat (split; [assumption|]). assumption.
Qed.

Lemma shaded_no_chain s (tg : list RenderTarget) a b :
  shaded s (length tg) (S (length tg)) [] [] (tg ++ [a; b])
    = tg ++ [with_shader s a; with_shader (s + 1) b].
Proof.
  unfold shaded, shade. cbn [foldl]. rewrite alter_snoc.
  replace (S (length tg)) with (length tg + 1)%nat by lia.
  rewrite alter_app_r. reflexivity.
Qed.

(** X8: a size below 2 (1, 0 or negative) is not refused.  The session
    returns; the two specular cube maps are requested with that size;
    [create] makes no pair, only the two diffuse targets; and
    [set_shaders] still loads all four programs, of which the two
    specular ones end on no target. *)
Theorem small_size_has_no_chain (stage : nat) (name : string) (size : Z)
    (w : World) :
  size < 2 ->
  exists st,
    session stage name size w = (Ok tt, st) /\
    textures (world st) = textures w ++ cube_maps name size /\
    _targets_spec (self st) = Some [] /\
    _targets_spec_filter (self st) = Some [] /\
    targets (world st) =
      targets w ++
      [ with_shader (length (shaders w))
          (integrate_target name (length (textures w) + 3) (length (textures w)));
        with_shader (length (shaders w) + 1)
          (denoise_target name (length (textures w)) (length (textures w) + 1)) ] /\
    shaders (world st) = shaders w ++ shader_paths /\
    forall t : nat, (length (targets w) <= t)%nat ->
      shader_of (world st) t <> Some (length (shaders w) + 2)%nat /\
      shader_of (world st) t <> Some (length (shaders w) + 3)%nat.
Proof.
  intros Hsize.
  eexists. split; [apply session_run|].
  cbn [self world textures targets shaders created_filter filter_with
       _targets_spec _targets_spec_filter].
  unfold created_targets, shader_of. cbn [targets].
  rewrite (halvings_stop size Hsize).
  cbn [length every_other spec_chain app].
  rewrite Nat.mul_0_r, Nat.add_0_r, shaded_no_chain.
  do 5 (split; [reflexivity|]).
  intros t Ht. unfold shader_at.
  rewrite lookup_app_r by exact Ht.
  destruct (t - length (targets w))%nat as [|[|k]]; cbn; split; intros E;
    try discriminate; injection E; lia.
Qed.

(** The witness of X8: size 0 on a host with nothing in it. *)
Lemma small_size_has_no_chain_witness :
  0 < 2 /\
  exists st,
    session 0%nat "Cubemap" 0 empty_world = (Ok tt, st) /\
    _targets_spec (self st) = Some [] /\
    length (targets (world st)) = 2%nat.
Proof.
  split; [lia|].
  destruct (small_size_has_no_chain 0%nat "Cubemap" 0 empty_world ltac:(lia))
    as (st & Hrun & _ & Hts & _ & Htg & _).
  exists st. split; [exact Hrun|]. split; [exact Hts|].
  rewrite Htg. reflexivity.
Defined.

(** ** Filtering modes of the four cube maps *)

(** X9: the constructor sets the mag-filter to [FT_linear] on the diffuse,
    the specular and the prefilter map, in this order, and on no other
    texture: the specular prefilter map gets a min-filter only, and its
    mag-filter stays what the image factory made it, also after any
    sequence of [create] and [set_shaders] calls. *)
Theorem mag_filter_skips_spec_pref (stage : nat) (name : string) (size : Z)
    (w : World) (ops : list Op) :
  exists st0 tpf tdm tpm tsm,
    construct stage name size w = (Ok tt, st0) /\
    List.filter is_set_magfilter (issued w (world st0)) =
      [ Call_set_magfilter (length (textures w) + 1) FT_linear;
        Call_set_magfilter (length (textures w) + 3) FT_linear;
        Call_set_magfilter (length (textures w)) FT_linear ] /\
    _spec_pref_map (self st0) = Some (mkImage (length (textures w) + 2)) /\
    textures (world (run_ops ops st0)) = textures w ++ [tpf; tdm; tpm; tsm] /\
    tex_minfilter tpf = Some FT_linear /\
    tex_magfilter tpf = Some FT_linear /\
    tex_magfilter tdm = Some FT_linear /\
    tex_magfilter tsm = Some FT_linear /\
    tex_minfilter tpm = Some FT_linear_mipmap_linear /\
    tex_magfilter tpm = None.
Proof.
  pose proof (construct_alive stage name size w) as Ha.
  rewrite construct_run in Ha. cbn [snd] in Ha.
  eexists _, _, _, _, _. split; [apply construct_run|].
  destruct (run_ops_alive stage name size w ops _ Ha) as [_ [_ Htx]].
  rewrite Htx. cbn [self world filter_with _spec_pref_map]. rewrite issued_app.
  split; [reflexivity|]. split; [reflexivity|].
  split; [reflexivity|]. repeat split.
Qed.

(** ** What [create] sets on its targets *)

Lemma inputs_of_three (P : ShaderInput -> Prop) (k1 k2 k3 : string)
    (v1 v2 v3 : ShaderInput) :
  P v1 -> P v2 -> P v3 ->
  forall k v,
    (<[k3 := v3]> (<[k2 := v2]> (<[k1 := v1]> (∅ : gmap string ShaderInput)))) !! k
      = Some v ->
    P v.
Proof.
  intros H1 H2 H3 k v Hk.
  apply lookup_insert_Some in Hk as [[_ <-]|[_ Hk]]; [exact H3|].
  apply lookup_insert_Some in Hk as [[_ <-]|[_ Hk]]; [exact H2|].
  apply lookup_insert_Some in Hk as [[_ <-]|[_ Hk]]; [exact H1|].
  rewrite lookup_empty in Hk. discriminate.
Qed.

(** What holds of every target [create] makes, for a filter whose cube
    maps start at texture [n]. *)
Lemma spec_chain_made name (n : nat) sizes :
  forall mip,
  Forall (fun x =>
            tgt_prepared x = true /\ is_Some (tgt_size x) /\
            tgt_color_texture x = false /\
            forall k v (tex : nat), tgt_inputs x !! k = Some v ->
              input_texture v = Some tex -> (n <= tex < n + 4)%nat)
    (spec_chain name (n + 3) (n + 2) mip sizes).
Proof.
  induction sizes as [|s sizes IH]; intros mip; cbn [spec_chain];
    [constructor|].
  constructor; [|constructor; [|apply IH]].
  - split; [reflexivity|]. split; [eexists; reflexivity|]. split; [reflexivity|].
    intros k v tex Hk. revert tex.
    refine (inputs_of_three
              (fun v => forall tex : nat, input_texture v = Some tex ->
                                          (n <= tex < n + 4)%nat)
              _ _ _ _ _ _ _ _ _ k v Hk).
    + destruct (decide (mip = 0)); intros tex [= <-]; lia.
    + intros tex [= <-]. lia.
    + intros tex [=].
  - split; [reflexivity|]. split; [eexists; reflexivity|]. split; [reflexivity|].
    intros k v tex Hk. revert tex.
    refine (inputs_of_three
              (fun v => forall tex : nat, input_texture v = Some tex ->
                                          (n <= tex < n + 4)%nat)
              _ _ _ _ _ _ _ _ _ k v Hk).
    + intros tex [=].
    + intros tex [= <-]. lia.
    + intros tex [= <-]. lia.
Qed.

(** X10: every target [create] makes has a size and a prepared offscreen
    buffer, and no shader yet; exactly the two diffuse targets have a
    colour texture; and every texture bound as a shader input of such a
    target is one of the four cube maps of the filter. *)
Theorem created_targets_are_set_up (stage : nat) (name : string) (size : Z)
    (w : World) :
  exists st dt dft,
    and_then (construct stage name size w) create = (Ok tt, st) /\
    _diffuse_target (self st) = Some dt /\
    _diff_filter_target (self st) = Some dft /\
    length (textures (world st)) = (length (textures w) + 4)%nat /\
    forall (t : nat) x,
      (length (targets w) <= t)%nat ->
      targets (world st) !! t = Some x ->
      tgt_prepared x = true /\ is_Some (tgt_size x) /\ tgt_shader x = None /\
      (tgt_color_texture x = true <-> t = dt \/ t = dft) /\
      forall k v (tex : nat), tgt_inputs x !! k = Some v ->
        input_texture v = Some tex ->
        (length (textures w) <= tex < length (textures w) + 4)%nat.
Proof.
  set (n := length (textures w)).
  set (count := length (halvings size)).
  eexists _, _, _. split; [apply built_run|].
  cbn [self world textures targets created_filter filter_with
       _diffuse_target _diff_filter_target].
  do 2 (split; [reflexivity|]).
  split; [rewrite length_app; reflexivity|].
  fold n count. intros t x Ht Hx.
  pose proof (created_no_shader name size n) as Hno.
  rewrite Forall_lookup in Hno.
  rewrite lookup_app_r in Hx by exact Ht.
  split; [|split; [|split; [exact (Hno _ _ Hx)|]]];
    unfold created_targets in Hx;
    pose proof (spec_chain_length name (n + 3) (n + 2) 0 (halvings size)) as Hlen;
    fold count in Hlen;
    pose proof (spec_chain_made name n (halvings size) 0) as Hmade;
    rewrite Forall_lookup in Hmade;
    apply lookup_app_Some in Hx as [Hx | [Hge Hx]].
  - apply (Hmade _ _ Hx).
  - rewrite Hlen in Hx.
    destruct (t - length (targets w) - 2 * count)%nat as [|[|j]];
      cbn in Hx; [injection Hx as <-; reflexivity ..|discriminate].
  - apply (Hmade _ _ Hx).
  - rewrite Hlen in Hx.
    destruct (t - length (targets w) - 2 * count)%nat as [|[|j]];
      cbn in Hx; [injection Hx as <-; eexists; reflexivity ..|discriminate].
  - apply lookup_lt_Some in Hx as Hlt. rewrite Hlen in Hlt.
    destruct (Hmade _ _ Hx) as (_ & _ & Hc & Hin).
    split; [|exact Hin]. rewrite Hc. split; [discriminate|]. lia.
  - rewrite Hlen in Hx, Hge.
    destruct (t - length (targets w) - 2 * count)%nat as [|[|j]] eqn:E;
      cbn in Hx; [injection Hx as <- ..|discriminate].
    + split; [split; [intros _; left; lia | reflexivity]|].
      intros k v tex Hk. revert tex.
      refine (inputs_of_three
                (fun v => forall tex : nat, input_texture v = Some tex ->
                                            (n <= tex < n + 4)%nat)
                _ _ _ _ _ _ _ _ _ k v Hk); intros tex [=]; subst; lia.
    + split; [split; [intros _; right; lia | reflexivity]|].
      intros k v tex Hk. revert tex.
      refine (inputs_of_three
                (fun v => forall tex : nat, input_texture v = Some tex ->
                                            (n <= tex < n + 4)%nat)
                _ _ _ _ _ _ _ _ _ k v Hk); intros tex [=]; subst; lia.
Qed.

(** ** Names of the targets *)

Lemma string_app_assoc (a b c : string) : (a +:+ b) +:+ c = a +:+ (b +:+ c).
Proof.
  induction a as [|x a IH]; [reflexivity|].
  change (String x ((a +:+ b) +:+ c) = String x (a +:+ (b +:+ c))).
  rewrite IH. reflexivity.
Qed.

Lemma halvings_lt m : forall s, s ∈ halvings m -> s < m.
Proof.
  funelim (halvings m); intros s Hs.
  - pose proof (halve_decreases mipsize g).
    apply elem_of_cons in Hs as [->|Hs]; [lia|].
    specialize (H s Hs). lia.
  - inversion Hs.
Qed.

Lemma halvings_NoDup m : NoDup (halvings m).
Proof.
  funelim (halvings m).
  - apply NoDup_cons. split; [|exact H].
    intros Hin. apply halvings_lt in Hin. lia.
  - constructor.
Qed.

Lemma created_names name size n :
  tgt_name <$> created_targets name size n
    = (fun suffix => name +:+ suffix) <$> target_suffixes size.
Proof.
  unfold created_targets, target_suffixes. rewrite !fmap_app. f_equal.
  generalize (halvings size) 0.
  induction l as [|s l IH]; intros mip; [reflexivity|].
  cbn [spec_chain flat_map fmap list_fmap app tgt_name downsample_target
       filter_target].
  rewrite !string_app_assoc. do 2 f_equal. apply IH.
Qed.

Lemma chain_suffixes_NoDup (l : list Z) :
  NoDup l ->
  NoDup (flat_map (fun s => ["SpecIBL-" +:+ str s; "SpecIBLFilter-" +:+ str s]) l) /\
  forall x,
    x ∈ flat_map (fun s => ["SpecIBL-" +:+ str s; "SpecIBLFilter-" +:+ str s]) l ->
    exists s, s ∈ l /\ (x = "SpecIBL-" +:+ str s \/ x = "SpecIBLFilter-" +:+ str s).
Proof.
  intros Hl. split.
  - induction Hl as [|s l Hs Hl IH]; [constructor|].
    cbn [flat_map app].
    assert (forall (b : bool) x,
              x ∈ flat_map (fun s => ["SpecIBL-" +:+ str s;
                                      "SpecIBLFilter-" +:+ str s]) l ->
              x <> (if b then "SpecIBL-" else "SpecIBLFilter-") +:+ str s) as Hfresh.
    { intros b x Hx ->. apply list_elem_of_In, in_flat_map in Hx as (s' & Hs' & Hx).
      apply list_elem_of_In in Hs'.
      assert (s = s') as E; [|subst s'; contradiction].
      destruct b, Hx as [Hx|[Hx|[]]]; cbv [String.append] in Hx;
        try discriminate Hx; injection Hx as Hx; unfold str in Hx;
        apply (inj pretty) in Hx; congruence. }
    apply NoDup_cons. split.
    + intros Hin. apply elem_of_cons in Hin as [Hin|Hin].
      * cbv [String.append] in Hin. discriminate Hin.
      * exact (Hfresh true _ Hin eq_refl).
    + apply NoDup_cons. split; [|exact IH].
      intros Hin. exact (Hfresh false _ Hin eq_refl).
  - intros x Hx. apply list_elem_of_In, in_flat_map in Hx as (s & Hs & Hx).
    exists s. split; [apply list_elem_of_In, Hs|].
    destruct Hx as [<-|[<-|[]]]; [left|right]; reflexivity.
Qed.

(** X11: in one call of [create], on a filter of any name and size, no two
    targets get the same name. *)
Theorem created_names_differ (stage : nat) (name : string) (size : Z) (w : World) :
  exists st made,
    and_then (construct stage name size w) create = (Ok tt, st) /\
    targets (world st) = targets w ++ made /\
    NoDup (tgt_name <$> made).
Proof.
  eexists _, _. split; [apply built_run|].
  cbn [world targets]. split; [reflexivity|].
  rewrite created_names. apply NoDup_fmap_2; [apply String.app_inj|].
  unfold target_suffixes.
  destruct (chain_suffixes_NoDup (halvings size) (halvings_NoDup size))
    as [Hnd Hform].
  apply NoDup_app. split; [exact Hnd|]. split.
  - intros x Hx Hin.
    assert (x = "DiffuseIBL" \/ x = "DiffPrefIBL") as Hd.
    { apply elem_of_cons in Hin as [Hin|Hin]; [left; exact Hin|].
      apply elem_of_cons in Hin as [Hin|Hin]; [right; exact Hin|].
      inversion Hin. }
    destruct (Hform x Hx) as (s & _ & [->| ->]), Hd as [Hd|Hd];
      cbv [String.append] in Hd; discriminate Hd.
  - apply NoDup_cons. split; [|apply NoDup_singleton].
    intros Hin. apply elem_of_cons in Hin as [Hin|Hin];
      [discriminate Hin | inversion Hin].
Qed.

(** ** The calls made on one target *)

Lemma calls_on_app t l k : calls_on t (l ++ k) = calls_on t l ++ calls_on t k.
Proof. apply List.filter_app. Qed.

Ltac calls_on_block :=
  unfold calls_on, downsample_calls, filter_calls, diffuse_calls;
  cbn [List.filter call_target].

Lemma calls_on_downsample stage name sm pm (t t' : nat) mip s :
  calls_on t (downsample_calls stage name sm pm t' mip s) =
  if decide (t' = t) then tl (downsample_calls stage name sm pm t' mip s) else [].
Proof.
  calls_on_block. destruct (decide (t' = t)) as [->|Hne].
  - rewrite !Nat.eqb_refl. reflexivity.
  - rewrite (proj2 (Nat.eqb_neq t' t) Hne). reflexivity.
Qed.

Lemma calls_on_filter stage name sm pm (t t' : nat) mip s :
  calls_on t (filter_calls stage name sm pm t' mip s) =
  if decide (t' = t) then tl (filter_calls stage name sm pm t' mip s) else [].
Proof.
  calls_on_block. destruct (decide (t' = t)) as [->|Hne].
  - rewrite !Nat.eqb_refl. reflexivity.
  - rewrite (proj2 (Nat.eqb_neq t' t) Hne). reflexivity.
Qed.

Lemma calls_on_chain_outside stage name sm pm sizes :
  forall (t0 : nat) mip (t : nat),
  (t < t0 \/ t0 + 2 * length sizes <= t)%nat ->
  calls_on t (spec_chain_calls stage name sm pm t0 mip sizes) = [].
Proof.
  induction sizes as [|s sizes IH]; intros t0 mip t Ht; [reflexivity|].
  cbn [spec_chain_calls length] in *.
  rewrite !calls_on_app, calls_on_downsample, calls_on_filter.
  rewrite IH by lia. repeat case_decide; try lia. reflexivity.
Qed.

Lemma calls_on_chain_pair stage name sm pm sizes :
  forall (t0 : nat) mip (i : nat) s,
  sizes !! i = Some s ->
  calls_on (t0 + 2 * i) (spec_chain_calls stage name sm pm t0 mip sizes)
    = tl (downsample_calls stage name sm pm (t0 + 2 * i) (mip + Z.of_nat i) s) /\
  calls_on (S (t0 + 2 * i)) (spec_chain_calls stage name sm pm t0 mip sizes)
    = tl (filter_calls stage name sm pm (S (t0 + 2 * i)) (mip + Z.of_nat i + 1) s).
Proof.
  induction sizes as [|s0 sizes IH]; intros t0 mip i s Hs; [inversion Hs|].
  cbn [spec_chain_calls].
  rewrite !calls_on_app, !calls_on_downsample, !calls_on_filter.
  destruct i as [|i].
  - injection Hs as ->.
    rewrite Nat.mul_0_r, Nat.add_0_r, Z.add_0_r.
    rewrite !calls_on_chain_outside by lia.
    repeat case_decide; try lia.
    rewrite !app_nil_r. split; reflexivity.
  - destruct (IH (S (S t0)) (mip + 1) i s Hs) as [Hd Hf].
    replace (t0 + 2 * S i)%nat with (S (S t0) + 2 * i)%nat by lia.
    replace (mip + Z.of_nat (S i)) with (mip + 1 + Z.of_nat i) by lia.
    repeat case_decide; try lia.
    split; assumption.
Qed.

Lemma calls_on_diffuse stage name sm pf dm (t t1 : nat) :
  calls_on t (diffuse_calls stage name sm pf dm t1) =
  if decide (t = t1) then firstn 6 (tl (diffuse_calls stage name sm pf dm t1))
  else if decide (t = S t1)
       then skipn 8 (diffuse_calls stage name sm pf dm t1)
       else [].
Proof.
  calls_on_block.
  destruct (decide (t = t1)) as [->|H1].
  - rewrite !Nat.eqb_refl, (proj2 (Nat.eqb_neq (S t1) t1)) by lia. reflexivity.
  - destruct (decide (t = S t1)) as [->|H2].
    + rewrite !Nat.eqb_refl, (proj2 (Nat.eqb_neq t1 (S t1))) by lia. reflexivity.
    + rewrite (proj2 (Nat.eqb_neq t1 t)), (proj2 (Nat.eqb_neq (S t1) t)) by lia.
      reflexivity.
Qed.

Lemma calls_on_set_all s (t : nat) l :
  NoDup l ->
  calls_on t (map (fun t' => Call_set_shader t' s) l) =
  if decide (t ∈ l) then [Call_set_shader t s] else [].
Proof.
  induction 1 as [|a l Ha Hl IH]; [reflexivity|].
  cbn [map]. change (?x :: ?k) with ([x] ++ k) at 1.
  rewrite calls_on_app, IH.
  unfold calls_on at 1. cbn [List.filter call_target].
  destruct (decide (a = t)) as [->|Hne].
  - rewrite Nat.eqb_refl, decide_False by exact Ha.
    rewrite decide_True by (apply elem_of_cons; left; reflexivity). reflexivity.
  - rewrite (proj2 (Nat.eqb_neq a t) Hne). cbn [app].
    destruct (decide (t ∈ l)) as [Hin|Hin].
    + rewrite decide_True by (apply elem_of_cons; right; exact Hin). reflexivity.
    + rewrite decide_False; [reflexivity|].
      intros H. apply elem_of_cons in H as [->|H]; contradiction.
Qed.

Lemma every_other_NoDup n count : NoDup (every_other n count).
Proof.
  revert n. induction count as [|c IH]; intros n; cbn [every_other];
    [constructor|].
  apply NoDup_cons. split; [|apply IH].
  intros Hin. apply elem_of_every_other in Hin as (i & _ & Hi). lia.
Qed.

Lemma calls_on_set_shaders stage s (dt dft : nat) ts fs (t : nat) :
  NoDup ts -> NoDup fs ->
  calls_on t (set_shaders_calls stage s dt dft ts fs) =
  (if decide (dt = t) then [Call_set_shader dt s] else [])
  ++ (if decide (dft = t) then [Call_set_shader dft (s + 1)] else [])
  ++ (if decide (t ∈ ts) then [Call_set_shader t (s + 2)] else [])
  ++ (if decide (t ∈ fs) then [Call_set_shader t (s + 3)] else []).
Proof.
  intros Hts Hfs. unfold set_shaders_calls.
  rewrite !calls_on_app, !calls_on_set_all by assumption.
  unfold calls_on. cbn [List.filter call_target].
  destruct (decide (dt = t)) as [E1|E1], (decide (dft = t)) as [E2|E2];
    first [ rewrite (proj2 (Nat.eqb_eq dt t) E1)
          | rewrite (proj2 (Nat.eqb_neq dt t) E1) ];
    first [ rewrite (proj2 (Nat.eqb_eq dft t) E2)
          | rewrite (proj2 (Nat.eqb_neq dft t) E2) ];
    reflexivity.
Qed.

Lemma calls_on_make_maps name size n t : calls_on t (make_maps_calls name size n) = [].
Proof. reflexivity. Qed.

(** X12: in a session, the calls made on each target of the filter come
    in a fixed order: the size is set first, the offscreen buffer is
    prepared next (for a diffuse target after its colour texture was
    added), then the three shader inputs are set, and the shader is set
    last.  The lists below are all the calls made on the [m]-th downsample
    target, on the [m]-th filter target, and on the two diffuse targets. *)
Theorem calls_on_each_target (stage : nat) (name : string) (size : Z) (w : World) :
  exists st ts fs dt dft sm pm pf dm,
    session stage name size w = (Ok tt, st) /\
    _targets_spec (self st) = Some ts /\
    _targets_spec_filter (self st) = Some fs /\
    _diffuse_target (self st) = Some dt /\
    _diff_filter_target (self st) = Some dft /\
    _specular_map (self st) = Some (mkImage sm) /\
    _spec_pref_map (self st) = Some (mkImage pm) /\
    _prefilter_map (self st) = Some (mkImage pf) /\
    _diffuse_map (self st) = Some (mkImage dm) /\
    (forall m : nat, (m < length ts)%nat ->
       exists d f,
         ts !! m = Some d /\ fs !! m = Some f /\
         calls_on d (issued w (world st)) =
           [ Call_set_size d (size / 2 ^ (Z.of_nat m + 1) * 6)
               (size / 2 ^ (Z.of_nat m + 1));
             Call_prepare_offscreen_buffer d;
             Call_set_shader_input d "SourceTex"
               (SI_texture (if decide (Z.of_nat m = 0) then sm else pm));
             Call_set_shader_input d "DestMipmap"
               (SI_image pm false true (-1) (Z.of_nat m + 1) 0);
             Call_set_shader_input d "currentMip" (SI_int (Z.of_nat m));
             Call_set_shader d (length (shaders w) + 2) ] /\
         calls_on f (issued w (world st)) =
           [ Call_set_size f (size / 2 ^ (Z.of_nat m + 1) * 6)
               (size / 2 ^ (Z.of_nat m + 1));
             Call_prepare_offscreen_buffer f;
             Call_set_shader_input f "currentMip" (SI_int (Z.of_nat m + 1));
             Call_set_shader_input f "SourceTex" (SI_texture pm);
             Call_set_shader_input f "DestMipmap"
               (SI_image sm false true (-1) (Z.of_nat m + 1) 0);
             Call_set_shader f (length (shaders w) + 3) ]) /\
    calls_on dt (issued w (world st)) =
      [ Call_set_size dt (32 * 6) 32;
        Call_add_color_texture dt;
        Call_prepare_offscreen_buffer dt;
        Call_set_shader_input dt "SourceCubemap" (SI_texture sm);
        Call_set_shader_input dt "DestCubemap" (SI_texture pf);
        Call_set_shader_input dt "cubeSize" (SI_int 32);
        Call_set_shader dt (length (shaders w)) ] /\
    calls_on dft (issued w (world st)) =
      [ Call_set_size dft (10 * 6) 10;
        Call_add_color_texture dft;
        Call_prepare_offscreen_buffer dft;
        Call_set_shader_input dft "SourceCubemap" (SI_texture pf);
        Call_set_shader_input dft "DestCubemap" (SI_texture dm);
        Call_set_shader_input dft "cubeSize" (SI_int 10);
        Call_set_shader dft (length (shaders w) + 1) ].
Proof.
  set (n := length (textures w)).
  set (t0 := length (targets w)).
  set (count := length (halvings size)).
  assert (forall t : nat,
    calls_on t (session_calls stage name size n t0 (length (shaders w))) =
    calls_on t (spec_chain_calls stage name (n + 3) (n + 2) t0 0 (halvings size))
    ++ calls_on t (diffuse_calls stage name (n + 3) n (n + 1) (t0 + 2 * count))
    ++ (if decide ((t0 + 2 * count)%nat = t)
        then [Call_set_shader (t0 + 2 * count) (length (shaders w))] else [])
    ++ (if decide (S (t0 + 2 * count) = t)
        then [Call_set_shader (S (t0 + 2 * count)) (length (shaders w) + 1)] else [])
    ++ (if decide (t ∈ every_other t0 count)
        then [Call_set_shader t (length (shaders w) + 2)] else [])
    ++ (if decide (t ∈ every_other (S t0) count)
        then [Call_set_shader t (length (shaders w) + 3)] else [])) as Hsplit.
  { intros t. unfold session_calls, create_calls. fold count.
    rewrite !calls_on_app, calls_on_make_maps,
      (calls_on_set_shaders _ _ _ _ _ _ _ (every_other_NoDup _ _)
         (every_other_NoDup _ _)).
    cbn [app]. rewrite <- !app_assoc. reflexivity. }
  assert (forall i, (i < count)%nat -> (t0 + 2 * i)%nat ∈ every_other t0 count) as Hin_ts.
  { intros i Hi. apply elem_of_every_other. exists i. split; [exact Hi|reflexivity]. }
  assert (forall i, (i < count)%nat -> S (t0 + 2 * i) ∈ every_other (S t0) count)
    as Hin_fs.
  { intros i Hi. apply elem_of_every_other. exists i. split; [exact Hi|reflexivity]. }
  assert (forall t, (forall i, t <> (t0 + 2 * i)%nat) -> t ∉ every_other t0 count)
    as Hout_ts.
  { intros t Hne Hin. apply elem_of_every_other in Hin as (i & _ & ->).
    exact (Hne i eq_refl). }
  assert (forall t, (forall i, t <> S (t0 + 2 * i)) -> t ∉ every_other (S t0) count)
    as Hout_fs.
  { intros t Hne Hin. apply elem_of_every_other in Hin as (i & _ & ->).
    exact (Hne i eq_refl). }
  assert (forall t : nat, (t0 + 2 * count <= t)%nat ->
            (t ∉ every_other t0 count) /\ (t ∉ every_other (S t0) count))
    as Hout_diff.
  { intros t Ht. split; intros Hin;
      apply elem_of_every_other in Hin as (i & Hi & ->); lia. }
  eexists _, _, _, _, _, _, _, _, _.
  split; [apply session_run|].
  cbn [self world created_filter filter_with _targets_spec _targets_spec_filter
       _diffuse_target _diff_filter_target _specular_map _spec_pref_map
       _prefilter_map _diffuse_map].
  do 8 (split; [reflexivity|]).
  rewrite !issued_app. fold n t0 count. rewrite every_other_length.
  split; [|split].
  - intros m Hm.
    exists (t0 + 2 * m)%nat, (S (t0 + 2 * m)).
    split; [apply every_other_lookup, Hm|].
    split; [apply every_other_lookup, Hm|].
    pose proof (halvings_lookup m size Hm) as Hs.
    destruct (calls_on_chain_pair stage name (n + 3) (n + 2) _ t0 0 m _ Hs)
      as [Hd Hf].
    rewrite !Hsplit, Hd, Hf, !calls_on_diffuse.
    rewrite (decide_True (P := (t0 + 2 * m)%nat ∈ every_other t0 count))
      by (apply Hin_ts, Hm).
    rewrite (decide_True (P := S (t0 + 2 * m) ∈ every_other (S t0) count))
      by (apply Hin_fs, Hm).
    rewrite (decide_False (P := (t0 + 2 * m)%nat ∈ every_other (S t0) count))
      by (apply Hout_fs; lia).
    rewrite (decide_False (P := S (t0 + 2 * m) ∈ every_other t0 count))
      by (apply Hout_ts; lia).
    rewrite !Z.add_0_l. unfold downsample_calls, filter_calls. cbn [tl].
    repeat case_decide; try lia; split; reflexivity.
  - destruct (Hout_diff (t0 + 2 * count)%nat ltac:(lia)) as [N1 N2].
    rewrite Hsplit, calls_on_diffuse, calls_on_chain_outside by lia.
    rewrite (decide_False (P := (t0 + 2 * count)%nat ∈ every_other t0 count))
      by exact N1.
    rewrite (decide_False (P := (t0 + 2 * count)%nat ∈ every_other (S t0) count))
      by exact N2.
    repeat case_decide; try lia. reflexivity.
  - destruct (Hout_diff (S (t0 + 2 * count)) ltac:(lia)) as [N1 N2].
    rewrite Hsplit, calls_on_diffuse, calls_on_chain_outside by lia.
    rewrite (decide_False (P := S (t0 + 2 * count) ∈ every_other t0 count))
      by exact N1.
    rewrite (decide_False (P := S (t0 + 2 * count) ∈ every_other (S t0) count))
      by exact N2.
    repeat case_decide; try lia. reflexivity.
Qed.

(** ** The mip levels bound for writing *)

Lemma spec_chain_lookup_inv name sm pm sizes :
  forall mip (j : nat) x,
  spec_chain name sm pm mip sizes !! j = Some x ->
  exists (i : nat) s,
    sizes !! i = Some s /\
    ((j = (2 * i)%nat /\ x = downsample_target name sm pm (mip + Z.of_nat i) s) \/
     (j = S (2 * i) /\ x = filter_target name sm pm (mip + Z.of_nat i + 1) s)).
Proof.
  induction sizes as [|s0 sizes IH]; intros mip j x Hj; [inversion Hj|].
  cbn [spec_chain] in Hj. destruct j as [|[|j]].
  - injection Hj as <-. exists 0%nat, s0. split; [reflexivity|]. left.
    rewrite Z.add_0_r. split; reflexivity.
  - injection Hj as <-. exists 0%nat, s0. split; [reflexivity|]. right.
    rewrite Z.add_0_r. split; reflexivity.
  - destruct (IH (mip + 1) j x Hj) as (i & s & Hs & Hcase).
    exists (S i), s. split; [exact Hs|].
    replace (mip + Z.of_nat (S i)) with (mip + 1 + Z.of_nat i) by lia.
    destruct Hcase as [[-> ->]|[-> ->]]; [left|right]; split;
      reflexivity || lia.
Qed.

(** X13: among the targets [create] makes, an image is bound only as
    [DestMipmap], with the arguments [False, True], and only at a mip
    level from 1 to [Z.log2 size]: level [l] of the specular map on the
    [l]-th filter target and level [l] of the specular prefilter map on
    the [l]-th downsample target, and on no other target.  Level 0 of
    either map is never bound this way. *)
Theorem mip_levels_bound_once (stage : nat) (name : string) (size : Z) (w : World) :
  exists st ts fs sm pm,
    and_then (construct stage name size w) create = (Ok tt, st) /\
    _targets_spec (self st) = Some ts /\
    _targets_spec_filter (self st) = Some fs /\
    _specular_map (self st) = Some (mkImage sm) /\
    _spec_pref_map (self st) = Some (mkImage pm) /\
    sm <> pm /\
    forall (t : nat) x k (tex : nat) a1 a2 a3 level a5,
      (length (targets w) <= t)%nat ->
      targets (world st) !! t = Some x ->
      tgt_inputs x !! k = Some (SI_image tex a1 a2 a3 level a5) ->
      k = "DestMipmap" /\ a1 = false /\ a2 = true /\
      1 <= level <= Z.log2 size /\
      ((tex = sm /\ fs !! Z.to_nat (level - 1) = Some t) \/
       (tex = pm /\ ts !! Z.to_nat (level - 1) = Some t)).
Proof.
  set (n := length (textures w)).
  set (t0 := length (targets w)).
  set (count := length (halvings size)).
  assert (Z.of_nat count = Z.log2 size) as Hcount by apply halvings_length.
  eexists _, _, _, (n + 3)%nat, (n + 2)%nat.
  split; [apply built_run|].
  cbn [self world targets created_filter filter_with _targets_spec
       _targets_spec_filter _specular_map _spec_pref_map].
  do 4 (split; [reflexivity|]). split; [lia|].
  fold n t0 count.
  intros t x k tex a1 a2 a3 level a5 Ht Hx Hk.
  rewrite lookup_app_r in Hx by exact Ht. unfold created_targets in Hx.
  apply lookup_app_Some in Hx as [Hx | [_ Hx]].
  - apply spec_chain_lookup_inv in Hx as (i & s & Hs & Hcase).
    apply lookup_lt_Some in Hs as Hi. fold count in Hi.
    rewrite Z.add_0_l in Hcase.
    destruct Hcase as [[Hj ->]|[Hj ->]];
      cbn [tgt_inputs downsample_target filter_target] in Hk;
      apply lookup_insert_Some in Hk as [[<- Hv]|[_ Hk]]; try discriminate Hv;
      try (apply lookup_insert_Some in Hk as [[<- Hv]|[_ Hk]]);
      try discriminate Hv;
      try (apply lookup_insert_Some in Hk as [[<- Hv]|[_ Hk]]);
      try discriminate Hv;
      try (rewrite lookup_empty in Hk; discriminate Hk);
      injection Hv as <- <- <- <- <- <-;
      (split; [reflexivity|]); (split; [reflexivity|]); (split; [reflexivity|]);
      (split; [lia|]).
    + right. split; [reflexivity|].
      replace (Z.to_nat (Z.of_nat i + 1 - 1)) with i by lia.
      rewrite every_other_lookup by exact Hi. f_equal. lia.
    + left. split; [reflexivity|].
      replace (Z.to_nat (Z.of_nat i + 1 - 1)) with i by lia.
      rewrite every_other_lookup by exact Hi. f_equal. lia.
  - match type of Hx with _ !! ?idx = _ => destruct idx as [|[|idx']] end;
      cbn [lookup list_lookup] in Hx;
      [injection Hx as <- ..|discriminate Hx];
      cbn [tgt_inputs integrate_target denoise_target] in Hk;
      apply lookup_insert_Some in Hk as [[_ Hv]|[_ Hk]]; try discriminate Hv;
      apply lookup_insert_Some in Hk as [[_ Hv]|[_ Hk]]; try discriminate Hv;
      apply lookup_insert_Some in Hk as [[_ Hv]|[_ Hk]]; try discriminate Hv;
      rewrite lookup_empty in Hk; discriminate Hk.
Qed.
